(** * pepbind-SVM: k-mer feature generation and the evaluation report

    A shallow embedding of [generateFeatures.py] and [predict.py].

    Python values are modelled as follows.
    - [str] is a list of characters ([pystr]); column names and feature
      identifiers, which are only compared and used as keys, are [string].
    - [int] is [Z].
    - [float] is an abstract carrier with the handful of operations the
      code performs on it ([PyFloat]); what the code does with a float
      (which quotient it rounds, to how many digits) is modelled, how
      binary64 rounds is not.
    - an exception is a value of [exn]; a computation that may raise
      returns [result].
    - a pandas [DataFrame] is the list of its rows, each row a finite map
      from column name to cell. The order of the columns is not
      recorded, and a table without rows keeps no record of its columns:
      statements about tables are made cell by cell, and on tables with
      a record. *)

From Stdlib Require Import ZArith QArith Qround Ascii String.
From stdpp Require Import gmap strings list sorting pretty.

Local Open Scope Z_scope.

(** ** Exceptions and the error monad *)

Inductive exn : Type :=
  | ValueError (msg : string)
  | ZeroDivisionError
  | KeyError (key : string)
  | TypeError (msg : string)
  | AttributeError (msg : string)
  | UnboundLocalError (var : string)
  | OverflowError (msg : string).

Inductive result (A : Type) : Type :=
  | Ok (a : A)
  | Raise (e : exn).
Arguments Ok {A} a.
Arguments Raise {A} e.

#[global] Instance result_ret : MRet result := fun A a => Ok a.
#[global] Instance result_bind : MBind result := fun A B f m =>
  match m with
  | Ok a => f a
  | Raise e => Raise e
  end.
#[global] Instance result_fmap : FMap result := fun A B f m =>
  match m with
  | Ok a => Ok (f a)
  | Raise e => Raise e
  end.

Definition is_Ok {A} (r : result A) : Prop := ∃ a, r = Ok a.
Definition raises {A} (r : result A) : Prop := ∃ e, r = Raise e.

(** ** Python strings *)

Abbreviation pystr := (list ascii).

Definition str (s : string) : pystr := list_ascii_of_string s.

(** [len(s)] *)
Definition len {A} (s : list A) : Z := Z.of_nat (length s).

(** [s.startswith(sub)] *)
Fixpoint startswith (s sub : pystr) : bool :=
  match sub, s with
  | [], _ => true
  | _ :: _, [] => false
  | b :: sub', a :: s' => if decide (a = b) then startswith s' sub' else false
  end.

(** The scan of [str.count] for a non-empty [sub]: walk over [s] from the
    left; on a match at the current position count it and resume right
    after the matched slice, otherwise move on by one character. [skip] is
    the number of characters still covered by the last counted match. *)
Fixpoint count_scan (sub : pystr) (skip : nat) (s : pystr) : nat :=
  match s with
  | [] => 0%nat
  | _ :: s' =>
      match skip with
      | S j => count_scan sub j s'
      | O =>
          if startswith s sub
          then S (count_scan sub (length sub - 1) s')
          else count_scan sub 0 s'
      end
  end.

(** [s.count(sub)]. For the empty [sub] Python counts the empty slices
    between characters: [len(s) + 1]. *)
Definition str_count (s sub : pystr) : Z :=
  match sub with
  | [] => len s + 1
  | _ :: _ => Z.of_nat (count_scan sub 0 s)
  end.

(** [s * n] on a string literal *)
Fixpoint str_repeat (s : string) (n : nat) : string :=
  match n with
  | O => ""
  | S n' => s +:+ str_repeat s n'
  end.

(** [''.join(parts)] *)
Definition join (parts : list pystr) : pystr := concat parts.

(** Iterating over a [str] yields its one-character strings. *)
Definition iter_str (s : pystr) : list pystr := map (λ c, [c]) s.

(** ** itertools.product *)

(** One round of the loop in the documented equivalent of
    [itertools.product]:
    [result = [x+[y] for x in result for y in pool]]. *)
Definition product_step {A} (pool : list A) (result : list (list A)) : list (list A) :=
  x ← result; y ← pool; [x ++ [y]].

(** [pools = [tuple(pool)] * repeat; result = [[]]; for pool in pools: ...] *)
Fixpoint product_pools {A} (pool : list A) (repeat : nat) : list (list A) :=
  match repeat with
  | O => [[]]
  | S r => product_step pool (product_pools pool r)
  end.

(** The largest [Py_ssize_t] of a 64-bit build, and the size of one. *)
Definition PY_SSIZE_T_MAX : Z := 2 ^ 63 - 1.
Definition sizeof_Py_ssize_t : Z := 8.

(** [itertools.product(pool, repeat=n)] for one pool, materialised as a
    list. The constructor converts [repeat] to a [Py_ssize_t], rejects a
    negative one, and refuses a [repeat] for which the array of
    [repeat] indices cannot be addressed. Memory is taken to be
    unbounded: the [MemoryError] of a product too large to allocate is
    not modelled. *)
Definition itertools_product {A} (pool : list A) (repeat : Z) : result (list (list A)) :=
  if (repeat <? - PY_SSIZE_T_MAX - 1) || (PY_SSIZE_T_MAX <? repeat)
  then Raise (OverflowError "Python int too large to convert to C ssize_t")
  else if repeat <? 0
  then Raise (ValueError "repeat argument cannot be negative")
  else if (repeat =? 0) || (1 <=? (PY_SSIZE_T_MAX `div` sizeof_Py_ssize_t) `div` repeat)
  then Ok (product_pools pool (Z.to_nat repeat))
  else Raise (OverflowError "repeat argument too large").

(** ** Floats *)

Class PyFloat : Type := {
  float : Type;
  (** [a / b] for ints [a], [b] with [b <> 0] *)
  int_truediv : Z → Z → float;
  (** [round(x, ndigits)] *)
  round_ndigits : float → Z → float;
  (** [x * y] *)
  float_mul : float → float → float;
  (** the literal [100.0] *)
  float_100 : float;
  (** [format(x, '.<d>f')] for a finite [x] *)
  format_fixed : float → nat → string
}.

(** ** generateFeatures.py *)

Definition amino_acids : pystr := str "ACDEFGHIKLMNPQRSTVWY".

Section Extractors.
Context {F : PyFloat}.

(** [sequence.count(ngram) / len(sequence)]: int by int true division. *)
Definition py_truediv (a b : Z) : result float :=
  if b =? 0 then Raise ZeroDivisionError else Ok (int_truediv a b).

Definition generate_ngram_composition (sequence : pystr) (n : Z) : result (list float) :=
  prods ← itertools_product (iter_str amino_acids) n;
  let ngrams := map join prods in
  mapM (λ ngram,
          q ← py_truediv (str_count sequence ngram) (len sequence);
          mret (round_ndigits q 3))
       ngrams.

Definition generate_ngram_occurences (sequence : pystr) (n : Z) : result (list Z) :=
  prods ← itertools_product (iter_str amino_acids) n;
  let ngrams := map join prods in
  mret (map (λ ngram, str_count sequence ngram) ngrams).

End Extractors.

(** *** DataFrame rows *)

(** An element of a feature list. *)
Inductive value {F : PyFloat} : Type :=
  | VInt (z : Z)
  | VFloat (x : float)
  | VStr (s : pystr).

(** A cell of the table. [read_csv] yields scalar cells; the feature
    columns written by [generate_features] hold lists. *)
Inductive cell {F : PyFloat} : Type :=
  | CStr (s : pystr)
  | CInt (z : Z)
  | CFloat (x : float)
  | CList (l : list value).

Abbreviation row := (gmap string cell).
Abbreviation DataFrame := (list (gmap string cell)).

Section Features.
Context {F : PyFloat}.

(** [df[name]]: the column as a list of cells, [KeyError] when a row
    lacks it. *)
Definition df_getitem (df : DataFrame) (name : string) : result (list cell) :=
  mapM (λ r : row, match r !! name with
                   | Some c => Ok c
                   | None => Raise (KeyError name)
                   end) df.

(** [df[name] = column] *)
Definition df_setitem (df : DataFrame) (name : string) (column : list cell) : DataFrame :=
  zip_with (λ (r : row) c, <[name := c]> r) df column.

(** [df['Sequence'].apply(lambda seq: f(seq))] for an extractor [f]
    that calls [seq.count] first: a numeric cell has no [count]. A list
    never reaches this column, [generate_features] writes only the five
    feature columns. *)
Definition apply_sequence (df : DataFrame) (f : pystr → result (list value))
    : result (list cell) :=
  seqs ← df_getitem df "Sequence";
  mapM (λ c, match c with
             | CStr seq => CList <$> f seq
             | _ => Raise (AttributeError "count")
             end) seqs.

Definition composition_values (n : Z) (seq : pystr) : result (list value) :=
  map VFloat <$> generate_ngram_composition seq n.

Definition occurence_values (n : Z) (seq : pystr) : result (list value) :=
  map VInt <$> generate_ngram_occurences seq n.

(** The body of the loop of [generate_features] for one [feat_name]. *)
Definition generate_feature (df : DataFrame) (feat_name : string) : result DataFrame :=
  if (feat_name =? "MonogramComp")%string then
    col ← apply_sequence df (composition_values 1);
    mret (df_setitem df "MonogramComp" col)
  else if (feat_name =? "BigramComp")%string then
    col ← apply_sequence df (composition_values 2);
    mret (df_setitem df "BigramComp" col)
  else if (feat_name =? "TrigramComp")%string then
    col ← apply_sequence df (composition_values 3);
    mret (df_setitem df "TrigramComp" col)
  else if (feat_name =? "MonogramOccur")%string then
    col ← apply_sequence df (occurence_values 1);
    mret (df_setitem df "MonogramOccur" col)
  else
    col ← apply_sequence df (occurence_values 2);
    mret (df_setitem df "BigramOccur" col).

Fixpoint generate_features (df : DataFrame) (features : list string) : result DataFrame :=
  match features with
  | [] => Ok df
  | feat_name :: features' =>
      df' ← generate_feature df feat_name;
      generate_features df' features'
  end.

(** [concatenated_list += obj]: a list is appended, a [str] is appended
    character by character, a number is not iterable. *)
Definition list_iadd (concatenated_list : list value) (obj : cell) : result (list value) :=
  match obj with
  | CList l => Ok (concatenated_list ++ l)
  | CStr s => Ok (concatenated_list ++ map (λ c, VStr [c]) s)
  | CInt _ | CFloat _ => Raise (TypeError "object is not iterable")
  end.

(** The loop of [concatenate_columns], from the accumulator [acc]. *)
Fixpoint concatenate_from (acc : list value) (r : row) (columns : list string)
    : result (list value) :=
  match columns with
  | [] => Ok acc
  | col :: columns' =>
      match r !! col with
      | None => Raise (KeyError col)
      | Some obj =>
          acc' ← list_iadd acc obj;
          concatenate_from acc' r columns'
      end
  end.

Definition concatenate_columns (r : row) (columns : list string) : result (list value) :=
  concatenate_from [] r columns.

(** [feature_df['Features'] = feature_df.apply(lambda row:
    concatenate_columns(row, features), axis=1)]. On a table without rows
    [apply] calls the function once on a row of missing values to see
    what it returns: with a feature to look up the call raises, [apply]
    then returns the empty table itself, and the assignment of a table
    to the one column is refused. *)
Definition assign_features (feature_df : DataFrame) (features : list string)
    : result DataFrame :=
  match feature_df, features with
  | [], _ :: _ =>
      Raise (ValueError
        "Cannot set a DataFrame with multiple columns to the single column Features")
  | _, _ =>
      rows ← mapM (λ r, concatenate_columns r features) feature_df;
      mret (df_setitem feature_df "Features" (CList <$> rows))
  end.

(** [name in df.columns] *)
Definition has_column (df : DataFrame) (name : string) : bool :=
  forallb (λ r : row, bool_decide (is_Some (r !! name))) df.

(** [repr(names)] for a list of plain names *)
Fixpoint join_with (sep : string) (parts : list string) : string :=
  match parts with
  | [] => ""
  | part :: parts' =>
      match parts' with
      | [] => part
      | _ :: _ => part +:+ sep +:+ join_with sep parts'
      end
  end.

Definition repr_list (names : list string) : string :=
  "[" +:+ join_with ", " ((λ name, "'" +:+ name +:+ "'") <$> names) +:+ "]".

(** [df[names]] for a list of names: the table of these columns. The
    names that are no column are reported together, in one [KeyError]
    (the texts are those of pandas 2). *)
Definition df_getitem_list (df : DataFrame) (names : list string) : result DataFrame :=
  let missing := filter (λ name, ¬ has_column df name) names in
  match missing with
  | [] => Ok ((λ r : row, filter (λ kv : string * cell, kv.1 ∈ names) r) <$> df)
  | _ :: _ =>
      if decide (length missing = length names)
      then Raise (KeyError ("None of [Index(" +:+ repr_list names
                            +:+ ", dtype='object')] are in the [columns]"))
      else Raise (KeyError (repr_list (remove_dups missing) +:+ " not in index"))
  end.

(** [np.array(rows)] for a list of lists of scalars, as NumPy 1.24 and
    later build it: rows of one length make a matrix, rows of different
    lengths are refused. The entries are kept as the lists hold them;
    their conversion to the one dtype of the array is not modelled. *)
Definition inhomogeneous_shape (rows : nat) : string :=
  "setting an array element with a sequence. The requested array has an "
  +:+ "inhomogeneous shape after 1 dimensions. The detected shape was ("
  +:+ pretty rows +:+ ",) + inhomogeneous part.".

Definition np_array (rows : list (list value)) : result (list (list value)) :=
  match rows with
  | [] => Ok []
  | x :: rows' =>
      if forallb (λ y, length y =? length x)%nat rows'
      then Ok rows
      else Raise (ValueError (inhomogeneous_shape (length rows)))
  end.

(** [process_features] from the table [data_df] as it is after
    [read_csv] and the shuffle; [reset_index] renumbers the rows, which a
    list of rows does anyway, and [to_numpy] keeps the labels as they
    are. *)
Definition process_features (data_df : DataFrame) (features : list string)
    : result (list (list value) * list cell * list cell) :=
  (* generating features *)
  feature_df ← generate_features data_df features;
  (* Select specified features and labels *)
  feature_df ← assign_features feature_df features;
  feature_df ← df_getitem_list feature_df ["Features"; "Label"; "Sequence"];
  (* Prepare data for training/ testing set *)
  X_col ← df_getitem feature_df "Features";
  X_data ← mapM (λ c, match c with
                      | CList l => Ok l
                      | _ => Raise (TypeError "Features")
                      end) X_col;
  label ← df_getitem feature_df "Label";
  sequences ← df_getitem feature_df "Sequence";
  X ← np_array X_data;
  mret (X, label, sequences).

End Features.

(** ** predict.py *)

(** A NumPy [float64] scalar: NumPy division by zero yields [nan] or an
    infinity (with a [RuntimeWarning]) where Python's raises. *)
Inductive npfloat {F : PyFloat} : Type :=
  | Finite (x : float)
  | Inf (negative : bool)
  | NaN.

Inductive kernel : Type := Rbf | Linear.

(** The arguments of the [SVC(...)] constructor. *)
Record SVC : Type := { svc_kernel : kernel; svc_probability : bool }.

(** What a run does to the outside world, in order. *)
Inductive event {F : PyFloat} : Type :=
  | EvFit (clf : SVC)
  | EvPredict
  | EvPredictProba
  | EvToCsv (path : string) (table : list (cell * string * string))
  | EvPrint (line : string).

(** A computation with effects: the events so far and how it ended. *)
Record io {F : PyFloat} (A : Type) : Type :=
  IO { trace : list event; outcome : result A }.
Arguments IO {F A} trace outcome.
Arguments trace {F A} _.
Arguments outcome {F A} _.

#[global] Instance io_ret {F : PyFloat} : MRet io := fun A a => IO [] (Ok a).
#[global] Instance io_bind {F : PyFloat} : MBind io := fun A B f m =>
  match m with
  | IO t (Ok a) => match f a with IO t' o => IO (t ++ t') o end
  | IO t (Raise e) => IO t (Raise e)
  end.

(** scikit-learn as the harness sees it: the classifier and the metric
    functions are opaque, each call returns or raises. *)
Class Sklearn {F : PyFloat} : Type := {
  fitted : Type;
  svc_fit : SVC → list (list value) → list Z → result fitted;
  svc_predict : fitted → list (list value) → result (list Z);
  (** [predict_proba(x)[:, 1]] *)
  svc_predict_proba : fitted → list (list value) → result (list npfloat);
  accuracy_score : list Z → list Z → result npfloat;
  f1_score : list Z → list Z → result npfloat;
  matthews_corrcoef : list Z → list Z → result npfloat;
  recall_score : list Z → list Z → result npfloat;
  (** [auc(FPR, TPR)] of [roc_curve(y_test, y_proba)] *)
  roc_auc : list Z → list npfloat → result npfloat
}.

Section Predict.
Context {F : PyFloat} {SK : Sklearn}.

Definition lift {A} (r : result A) : io A := IO [] r.
Definition emit (e : event) : io unit := IO [e] (Ok tt).
Definition print (line : string) : io unit := emit (EvPrint line).

(** [a / b] on NumPy integers *)
Definition np_true_divide (a b : Z) : npfloat :=
  if b =? 0 then (if a =? 0 then NaN else Inf (a <? 0))
  else Finite (int_truediv a b).

(** [x * 100.0]; a finite product is taken to stay finite, the
    factors here are ratios of counts. *)
Definition np_mul_100 (x : npfloat) : npfloat :=
  match x with
  | Finite x => Finite (float_mul x float_100)
  | Inf s => Inf s
  | NaN => NaN
  end.

(** ['{0:.<d>f}'.format(x)] *)
Definition format_float (x : npfloat) (digits : nat) : string :=
  match x with
  | Finite x => format_fixed x digits
  | Inf false => "inf"
  | Inf true => "-inf"
  | NaN => "nan"
  end.

(** The sorted distinct labels of [y_true] and [y_pred]. *)
Definition unique_labels (y_true y_pred : list Z) : list Z :=
  merge_sort Z.le (remove_dups (y_true ++ y_pred)).

(** [confusion_matrix(y_true, y_pred)]: one row and one column per
    label, cell (i, j) counts the records of true label i predicted j.
    The two label lists must have one length and hold a label. *)
Definition confusion_matrix (y_true y_pred : list Z) : result (list (list Z)) :=
  if decide (length y_true = length y_pred) then
    let labels := unique_labels y_true y_pred in
    let pairs := zip y_true y_pred in
    match labels with
    | [] => Raise (ValueError "'labels' should contains at least one label.")
    | _ :: _ =>
        Ok (map (λ t, map (λ p, len (filter (λ tp, tp = (t, p)) pairs)) labels) labels)
    end
  else Raise (ValueError "Found input variables with inconsistent numbers of samples").

(** [CM += other] for the 2 by 2 [CM]: NumPy broadcasts a 1 by 1 matrix
    and refuses any other shape. *)
Definition cm_iadd (CM : Z * Z * Z * Z) (other : list (list Z)) : result (Z * Z * Z * Z) :=
  let '(a, b, c, d) := CM in
  match other with
  | [[x]] => Ok (a + x, b + x, c + x, d + x)
  | [[x; y]; [z; w]] => Ok (a + x, b + y, c + z, d + w)
  | _ => Raise (ValueError "operands could not be broadcast together")
  end.

(** ["Positive" if label == 1 else "Negative"] *)
Definition label_text (label : Z) : string :=
  if label =? 1 then "Positive" else "Negative".

(** The model selection: [model1] is bound in two branches only. *)
Definition select_model (model : string) : option SVC :=
  if (model =? "svm-rbf")%string then
    Some {| svc_kernel := Rbf; svc_probability := true |}
  else if (model =? "svm-linear")%string then
    Some {| svc_kernel := Linear; svc_probability := true |}
  else None.

(** Reading the local [model1]. *)
Definition read_model1 (model1 : option SVC) : result SVC :=
  match model1 with
  | Some clf => Ok clf
  | None => Raise (UnboundLocalError "model1")
  end.

(** The lines printed from the confusion matrix and the metrics. Each of
    the lists [accuray], [F1_Score], [MCC] and [AUC] holds the one value
    appended to it, and [np.mean] of one value is that value. *)
Definition print_report (CM : Z * Z * Z * Z) (accuray F1_Score MCC AUC : npfloat) : io unit :=
  _ ← print (str_repeat " -" 25 +:+ " Evaluation Report " +:+ str_repeat " -" 25);
  let '(TN, FP, FN, TP) := CM in
  _ ← print ("True Negative: " +:+ pretty TN +:+ ", False Positive: " +:+ pretty FP
             +:+ ", False Negative: " +:+ pretty FN +:+ ", True Positive: " +:+ pretty TP);
  _ ← print ("Accuracy: " +:+ format_float accuray 4 +:+ "%");
  _ ← print ("Sensitivity: "
             +:+ format_float (np_mul_100 (np_true_divide TP (TP + FN))) 2 +:+ "%");
  _ ← print ("Specificity: "
             +:+ format_float (np_mul_100 (np_true_divide TN (TN + FP))) 2 +:+ "%");
  _ ← print ("F1_Score: " +:+ format_float F1_Score 2);
  _ ← print ("MCC: " +:+ format_float MCC 2);
  print ("AUC: " +:+ format_float AUC 2).

(** [pd.DataFrame({...}).to_csv('output.csv', index=False)]: the three
    columns must have one length. *)
Definition write_predictions (test_seq : list cell) (true_val pred_val : list string)
    : io unit :=
  if decide (length test_seq = length true_val ∧ length true_val = length pred_val)
  then emit (EvToCsv "output.csv" (zip (zip test_seq true_val) pred_val))
  else lift (Raise (ValueError "All arrays must be of the same length")).

(** [classifiers]; the parameter [args], which the function never reads,
    is left out. *)
Definition classifiers (x_train : list (list value)) (y_train : list Z)
    (x_test : list (list value)) (y_test : list Z)
    (train_seq test_seq : list cell) (model : string) : io unit :=
  let CM := (0, 0, 0, 0) in
  let model1 := select_model model in
  (* Training and inference *)
  clf ← lift (read_model1 model1);
  _ ← emit (EvFit clf);
  fit ← lift (svc_fit clf x_train y_train);
  _ ← emit EvPredict;
  y_pred ← lift (svc_predict fit x_test);
  _ ← emit EvPredictProba;
  y_proba ← lift (svc_predict_proba fit x_test);
  (* Calculating performance metrics *)
  cm ← lift (confusion_matrix y_test y_pred);
  CM ← lift (cm_iadd CM cm);
  accuray ← lift (accuracy_score y_test y_pred);
  F1_Score ← lift (f1_score y_test y_pred);
  MCC ← lift (matthews_corrcoef y_test y_pred);
  Recall ← lift (recall_score y_test y_pred);
  AUC ← lift (roc_auc y_test y_proba);
  let accuray := np_mul_100 accuray in
  (* Writing prediction to a csv file *)
  let true_val := map label_text y_test in
  let pred_val := map label_text y_pred in
  _ ← write_predictions test_seq true_val pred_val;
  (* Print performance metrics *)
  print_report CM accuray F1_Score MCC AUC.

End Predict.

(** ** Messages of exceptions *)

(** [str(e)]; for [UnboundLocalError] the text of Python 3.11 and later,
    for [KeyError] the [repr] of a key without quote characters. *)
Definition exn_message (e : exn) : string :=
  match e with
  | ValueError msg | TypeError msg | AttributeError msg | OverflowError msg => msg
  | ZeroDivisionError => "division by zero"
  | KeyError key => "'" +:+ key +:+ "'"
  | UnboundLocalError var =>
      "cannot access local variable '" +:+ var
      +:+ "' where it is not associated with a value"
  end.

(** [needle in hay] *)
Fixpoint contains (hay needle : pystr) : bool :=
  startswith hay needle ||
  match hay with
  | [] => false
  | _ :: hay' => contains hay' needle
  end.

(** ** Instances to run the model on concrete inputs *)

(** Exact rationals in place of binary64: the quotient is not rounded,
    [round] is half-to-even on the exact value. *)
Module QFloat.

Definition round_half_even (q : Q) : Z :=
  let fl := Qfloor q in
  match Qcompare (q - inject_Z fl) (1 # 2) with
  | Lt => fl
  | Gt => fl + 1
  | Eq => if Z.even fl then fl else fl + 1
  end.

Definition pow10 (n : Z) : Q := inject_Z (10 ^ n).

Definition round_digits (q : Q) (ndigits : Z) : Q :=
  if 0 <=? ndigits
  then Qred (inject_Z (round_half_even (q * pow10 ndigits)) / pow10 ndigits)
  else Qred (inject_Z (round_half_even (q / pow10 (- ndigits))) * pow10 (- ndigits)).

Definition zero_pad (width : nat) (s : string) : string :=
  str_repeat "0" (width - String.length s) +:+ s.

Definition to_fixed (q : Q) (digits : nat) : string :=
  let scaled := round_half_even (q * pow10 (Z.of_nat digits)) in
  let magnitude := Z.abs scaled in
  let scale := 10 ^ Z.of_nat digits in
  (if scaled <? 0 then "-" else "")
  +:+ pretty (magnitude `div` scale)
  +:+ (if decide (digits = O) then ""
       else "." +:+ zero_pad digits (pretty (magnitude `mod` scale))).

#[global] Instance instance : PyFloat := {|
  float := Q;
  int_truediv a b := Qred (inject_Z a / inject_Z b);
  round_ndigits := round_digits;
  float_mul x y := Qred (x * y);
  float_100 := 100 # 1;
  format_fixed := to_fixed
|}.

End QFloat.

(** A recorded scikit-learn session, replayed: every call returns the
    answer given when the instance is built. *)
Definition replay {F : PyFloat} (y_pred : list Z) (y_proba : list npfloat)
    (acc f1 mcc rec auc : npfloat) : Sklearn := {|
  fitted := unit;
  svc_fit _ _ _ := Ok tt;
  svc_predict _ _ := Ok y_pred;
  svc_predict_proba _ _ := Ok y_proba;
  accuracy_score _ _ := Ok acc;
  f1_score _ _ := Ok f1;
  matthews_corrcoef _ _ := Ok mcc;
  recall_score _ _ := Ok rec;
  roc_auc _ _ := Ok auc
|}.

(** The four records of the end-to-end scenario: sequences AC, AC, GG,
    GG with labels 1, 1, 0, 0. *)
Definition record {F : PyFloat} (sequence : string) (label : Z) : row :=
  <["Sequence" := CStr (str sequence)]> (<["Label" := CInt label]> ∅).

Definition example_table {F : PyFloat} : DataFrame :=
  [record "AC" 1; record "AC" 1; record "GG" 0; record "GG" 0].

(** A session on a test set of two negative records, one of them
    predicted positive. *)
Definition negatives_only_session : Sklearn (F := QFloat.instance) :=
  replay [0; 1] [Finite (1 # 4); Finite (3 # 4)]
         (Finite (1 # 2)) (Finite 0%Q) (Finite 0%Q) (Finite 0%Q) NaN.

(** ** Vocabulary of the statements *)

(** The list both extractors bind to [ngrams], for a count [k] of
    positions. *)
Definition kmers (k : nat) : list pystr :=
  map join (product_pools (iter_str amino_acids) k).

(** [s[i : i + len(sub)] == sub] *)
Definition occurs_at (sub s : pystr) (i : nat) : Prop :=
  take (length sub) (drop i s) = sub.

#[global] Instance occurs_at_dec sub s i : Decision (occurs_at sub s i).
Proof. unfold occurs_at. apply _. Defined.

(** Start positions of slices of length [m] that pairwise do not overlap,
    in increasing order. *)
Fixpoint non_overlapping (m : nat) (ps : list nat) : Prop :=
  match ps with
  | [] => True
  | p :: ps' => Forall (λ q, (p + m ≤ q)%nat) ps' ∧ non_overlapping m ps'
  end.

(** The count the specification describes: the number of positions of
    [s] at which [sub] occurs, overlapping occurrences included. *)
Definition overlapping_count (s sub : pystr) : Z :=
  len (filter (occurs_at sub s) (seq 0 (S (length s)))).

(** [c] is the largest number of pairwise disjoint occurrences of [sub]
    in [s]. *)
Definition max_disjoint_matches (s sub : pystr) (c : Z) : Prop :=
  (∃ ps, len ps = c ∧ non_overlapping (length sub) ps ∧ Forall (occurs_at sub s) ps)
  ∧ (∀ ps, non_overlapping (length sub) ps → Forall (occurs_at sub s) ps → len ps ≤ c).

(** The identifiers [generate_features] tests for or, for the last one,
    names in its [else] branch. *)
Definition recognised_features : list string :=
  ["MonogramComp"; "BigramComp"; "TrigramComp"; "MonogramOccur"; "BigramOccur"].

(** The column [generate_features] writes for [feat_name]. *)
Definition column_of (feat_name : string) : string :=
  if (feat_name =? "MonogramComp")%string then "MonogramComp"
  else if (feat_name =? "BigramComp")%string then "BigramComp"
  else if (feat_name =? "TrigramComp")%string then "TrigramComp"
  else if (feat_name =? "MonogramOccur")%string then "MonogramOccur"
  else "BigramOccur".

(** The extractor [generate_features] applies for [feat_name]. *)
Definition extractor {F : PyFloat} (feat_name : string) : pystr → result (list value) :=
  if (feat_name =? "MonogramComp")%string then composition_values 1
  else if (feat_name =? "BigramComp")%string then composition_values 2
  else if (feat_name =? "TrigramComp")%string then composition_values 3
  else if (feat_name =? "MonogramOccur")%string then occurence_values 1
  else occurence_values 2.

(** The sequence of a record, and the feature vector of a sequence where
    the extractor returns one. *)
Definition seq_of {F : PyFloat} (r : row) : pystr :=
  match r !! "Sequence" with
  | Some (CStr s) => s
  | _ => []
  end.

Definition block {F : PyFloat} (feat_name : string) (s : pystr) : list value :=
  match extractor feat_name s with
  | Ok l => l
  | Raise _ => []
  end.

(** A record on which every extractor of [features] returns. *)
Definition extractable {F : PyFloat} (features : list string) (r : row) : Prop :=
  ∃ s, r !! "Sequence" = Some (CStr s)
       ∧ Forall (λ feat_name, is_Ok (extractor feat_name s)) features.

(** A record after [generate_features] has handled [feat_name], and
    after it has handled all of [features] in turn. *)
Definition with_feature {F : PyFloat} (feat_name : string) (r : row) : row :=
  <[column_of feat_name := CList (block feat_name (seq_of r))]> r.

Definition with_features {F : PyFloat} (features : list string) (r : row) : row :=
  foldl (λ r feat_name, with_feature feat_name r) r features.

(** [sum(l)] *)
Definition sum_counts (l : list Z) : Z := foldr Z.add 0 l.

(** The length of the vector a feature identifier stands for. *)
Definition feature_width (feat_name : string) : nat :=
  (
  if (feat_name =? "MonogramComp")%string then 20 ^ 1
  else if (feat_name =? "BigramComp")%string then 20 ^ 2
  else if (feat_name =? "TrigramComp")%string then 20 ^ 3
  else if (feat_name =? "MonogramOccur")%string then 20 ^ 1
  else 20 ^ 2)%nat.

(** The identifiers whose extractor divides by the sequence length. *)
Definition composition_features : list string :=
  ["MonogramComp"; "BigramComp"; "TrigramComp"].

(** The events that leave something behind: the report file and the
    printed lines. *)
Definition is_output {F : PyFloat} (ev : event) : Prop :=
  match ev with
  | EvToCsv _ _ | EvPrint _ => True
  | _ => False
  end.

(** A computation that, when it raises, has produced no output. *)
Definition quiet_on_failure {F : PyFloat} {A} (m : io A) : Prop :=
  ∀ e, outcome m = Raise e → Forall (λ ev, ¬ is_output ev) (trace m).

(** The number of test records of true label [t] predicted [p]. *)
Definition count_pairs (t p : Z) (y_true y_pred : list Z) : Z :=
  len (filter (λ tp, tp = (t, p)) (zip y_true y_pred)).

(** * Properties *)

(** ** The error monad *)

Section ResultMonad.
Context {A B : Type}.
Implicit Types (f : A → result B) (l : list A).

Lemma mapM_result_cons f x l :
  mapM f (x :: l) = y ← f x; k ← mapM f l; mret (y :: k).
Proof. reflexivity. Qed.

Lemma mapM_result_Ok f (g : A → B) l :
  Forall (λ x, f x = Ok (g x)) l → mapM f l = Ok (map g l).
Proof.
  induction 1 as [|x l Hx _ IH]; [done|].
  rewrite mapM_result_cons, Hx, IH. done.
Qed.

Lemma mapM_result_Raise f e l :
  l ≠ [] → (∀ x, f x = Raise e) → mapM f l = Raise e.
Proof.
  intros Hl Hf. destruct l as [|x l]; [done|].
  rewrite mapM_result_cons, Hf. done.
Qed.

End ResultMonad.

(** ** The Cartesian product *)

Section Product.
Context {A : Type}.
Implicit Types (pool : list A) (P : list (list A)).

Lemma product_step_fmap pool P :
  product_step pool P = P ≫= λ x, (λ y, x ++ [y]) <$> pool.
Proof.
  unfold product_step. apply list_bind_ext; [|done].
  intros x. induction pool as [|y pool IH]; [done|]. csimpl. by f_equal.
Qed.

Lemma length_bind_uniform {B C} (f : B → list C) (n : nat) (l : list B) :
  (∀ x, length (f x) = n) → length (l ≫= f) = (length l * n)%nat.
Proof.
  intros Hf. induction l as [|x l IH]; [done|].
  rewrite bind_cons, length_app, Hf, IH. simpl. lia.
Qed.

Lemma lookup_bind_uniform {B C} (f : B → list C) (n : nat) (l : list B) (i : nat) :
  (0 < n)%nat → (∀ x, length (f x) = n) →
  (l ≫= f) !! i = (l !! (i `div` n)%nat) ≫= λ x, f x !! (i `mod` n)%nat.
Proof.
  intros Hn Hf. revert i. induction l as [|x l IH]; intros i.
  - done.
  - rewrite bind_cons. destruct (decide (i < n)%nat) as [Hi|Hi].
    + rewrite lookup_app_l by (rewrite Hf; done).
      rewrite Nat.div_small, Nat.mod_small by done. done.
    + rewrite lookup_app_r by (rewrite Hf; lia). rewrite Hf, IH.
      assert (i `div` n = S ((i - n) `div` n))%nat as ->.
      { replace i with ((i - n) + 1 * n)%nat at 1 by lia.
        rewrite Nat.div_add by lia. lia. }
      assert (i `mod` n = (i - n) `mod` n)%nat as ->.
      { replace i with ((i - n) + 1 * n)%nat at 1 by lia.
        by rewrite Nat.Div0.mod_add. }
      done.
Qed.

Lemma length_product_pools pool r :
  length (product_pools pool r) = (length pool ^ r)%nat.
Proof.
  induction r as [|r IH]; [done|]. simpl.
  rewrite product_step_fmap.
  rewrite (length_bind_uniform _ (length pool)) by (intros; apply length_fmap).
  rewrite IH. lia.
Qed.

Lemma product_pools_length pool r :
  Forall (λ x, length x = r) (product_pools pool r).
Proof.
  induction r as [|r IH]; simpl.
  - by repeat constructor.
  - rewrite product_step_fmap. apply Forall_bind.
    eapply Forall_impl; [exact IH|]. intros x Hx. simpl.
    apply Forall_fmap, Forall_true. intros y. simpl.
    rewrite length_app, Hx. simpl. lia.
Qed.

Lemma NoDup_product_pools pool r :
  NoDup pool → NoDup (product_pools pool r).
Proof.
  intros Hpool. induction r as [|r IH]; simpl.
  - apply NoDup_singleton.
  - rewrite product_step_fmap. apply NoDup_bind; [| |done].
    + intros x1 x2 z _ _ (y1 & -> & _)%list_elem_of_fmap (y2 & Heq & _)%list_elem_of_fmap.
      by apply app_inj_tail in Heq as [? _].
    + intros x _. apply NoDup_fmap_2; [|done].
      intros y1 y2 Heq. by apply app_inj_tail in Heq as [_ ?].
Qed.

(** The element at index [i] after one more round: the element at
    [i / n] of the previous list, extended on the right by the pool's
    element at [i mod n]. *)
Lemma lookup_product_pools_S pool r i :
  pool ≠ [] →
  product_pools pool (S r) !! i =
    x ← product_pools pool r !! (i `div` length pool)%nat;
    y ← pool !! (i `mod` length pool)%nat;
    Some (x ++ [y]).
Proof.
  intros Hpool. simpl. rewrite product_step_fmap.
  rewrite (lookup_bind_uniform _ (length pool)).
  - destruct (product_pools pool r !! _) as [x|]; [|done]. simpl.
    rewrite list_lookup_fmap. by destruct (pool !! _).
  - destruct pool; [done|simpl; lia].
  - intros; apply length_fmap.
Qed.

(** Position [j] of the [i]-th product is the base-[n] digit of [i] of
    weight [n ^ (r - 1 - j)]: the rightmost position runs through the
    pool fastest. *)
Lemma lookup_product_pools pool r i :
  pool ≠ [] → (i < length pool ^ r)%nat →
  ∃ x, product_pools pool r !! i = Some x ∧ length x = r ∧
    ∀ j, (j < r)%nat →
      x !! j = pool !! ((i `div` length pool ^ (r - 1 - j)) `mod` length pool)%nat.
Proof.
  intros Hpool. set (n := length pool).
  assert (0 < n)%nat as Hn by (subst n; destruct pool; [done|simpl; lia]).
  revert i. induction r as [|r IH]; intros i Hi.
  - exists []. simpl in Hi. replace i with O by lia. split_and!; [done..|]. lia.
  - destruct (IH (i `div` n)%nat) as (x & Hx & Hlen & Hdig).
    { apply Nat.Div0.div_lt_upper_bound. simpl in Hi. lia. }
    destruct (lookup_lt_is_Some_2 pool (i `mod` n)%nat) as [y Hy].
    { apply Nat.mod_upper_bound. lia. }
    exists (x ++ [y]). split_and!.
    + rewrite lookup_product_pools_S by done. fold n. rewrite Hx. simpl.
      rewrite Hy. done.
    + rewrite length_app, Hlen. simpl. lia.
    + intros j Hj. destruct (decide (j = r)) as [->|Hne].
      * rewrite lookup_app_r by lia. rewrite Hlen, Nat.sub_diag.
        replace (S r - 1 - r)%nat with O by lia.
        rewrite Nat.pow_0_r, Nat.div_1_r. done.
      * rewrite lookup_app_l by lia. rewrite Hdig by lia.
        rewrite Nat.Div0.div_div.
        replace (S r - 1 - j)%nat with (S (r - 1 - j)) by lia. done.
Qed.

End Product.

(** ** The k-mer list *)

Lemma join_snoc (x : list pystr) (c : ascii) : join (x ++ [[c]]) = join x ++ [c].
Proof. unfold join. by rewrite concat_app. Qed.

Lemma product_pools_S {A} (pool : list A) r :
  product_pools pool (S r) = product_step pool (product_pools pool r).
Proof. reflexivity. Qed.

Lemma join_product_pools (a : pystr) k :
  map join (product_pools (iter_str a) k) = product_pools a k.
Proof.
  induction k as [|k IH]; [done|].
  rewrite !product_pools_S, !product_step_fmap, <- IH.
  generalize (product_pools (iter_str a) k). intros P.
  induction P as [|x P IHP]; [done|].
  change (map join (x :: P)) with (join x :: map join P).
  rewrite !bind_cons, map_app, IHP. f_equal.
  unfold iter_str. clear. induction a as [|c a IHa]; [done|].
  simpl. rewrite join_snoc. by f_equal.
Qed.

Lemma kmers_product_pools k : kmers k = product_pools amino_acids k.
Proof. apply join_product_pools. Qed.

Lemma length_amino_acids : length amino_acids = 20%nat.
Proof. reflexivity. Qed.

Lemma NoDup_amino_acids : NoDup amino_acids.
Proof. apply (bool_decide_unpack _). by vm_compute. Qed.

Lemma length_kmers k : length (kmers k) = (20 ^ k)%nat.
Proof. by rewrite kmers_product_pools, length_product_pools, length_amino_acids. Qed.

Lemma kmers_length k : Forall (λ m, length m = k) (kmers k).
Proof. rewrite kmers_product_pools. apply product_pools_length. Qed.

Lemma NoDup_kmers k : NoDup (kmers k).
Proof. rewrite kmers_product_pools. apply NoDup_product_pools, NoDup_amino_acids. Qed.

Lemma kmers_nonempty k : kmers k ≠ [].
Proof.
  intros Hnil. pose proof (length_kmers k) as Hlen. rewrite Hnil in Hlen.
  simpl in Hlen. pose proof (Nat.pow_nonzero 20 k). lia.
Qed.

Lemma lookup_kmers k i :
  (i < 20 ^ k)%nat →
  ∃ m, kmers k !! i = Some m ∧
    ∀ j, (j < k)%nat →
      m !! j = amino_acids !! ((i `div` 20 ^ (k - 1 - j)) `mod` 20)%nat.
Proof.
  intros Hi. rewrite kmers_product_pools.
  destruct (lookup_product_pools amino_acids k i) as (m & Hm & _ & Hdig); [done..|].
  exists m. split; [done|]. intros j Hj. by rewrite Hdig.
Qed.

Section ExtractorFacts.
Context {F : PyFloat}.

Lemma addressable_indices : PY_SSIZE_T_MAX `div` sizeof_Py_ssize_t = 2 ^ 60 - 1.
Proof. reflexivity. Qed.

(** The four outcomes of the constructor, by the range of [repeat]. *)
Lemma itertools_product_nonneg {A} (pool : list A) (n : Z) :
  0 ≤ n < 2 ^ 60 → itertools_product pool n = Ok (product_pools pool (Z.to_nat n)).
Proof.
  intros Hn. unfold itertools_product.
  rewrite (proj2 (Z.ltb_ge n (- PY_SSIZE_T_MAX - 1))) by (unfold PY_SSIZE_T_MAX; lia).
  rewrite (proj2 (Z.ltb_ge PY_SSIZE_T_MAX n)) by (unfold PY_SSIZE_T_MAX; lia).
  rewrite (proj2 (Z.ltb_ge n 0)) by lia. cbn [orb].
  destruct (Z.eqb_spec n 0) as [->|Hne]; [done|]. cbn [orb].
  rewrite addressable_indices.
  rewrite (proj2 (Z.leb_le 1 _)); [done|]. apply Z.div_le_lower_bound; lia.
Qed.

Lemma itertools_product_neg {A} (pool : list A) (n : Z) :
  - 2 ^ 63 ≤ n < 0 →
  itertools_product pool n = Raise (ValueError "repeat argument cannot be negative").
Proof.
  intros Hn. unfold itertools_product.
  rewrite (proj2 (Z.ltb_ge n (- PY_SSIZE_T_MAX - 1))) by (unfold PY_SSIZE_T_MAX; lia).
  rewrite (proj2 (Z.ltb_ge PY_SSIZE_T_MAX n)) by (unfold PY_SSIZE_T_MAX; lia).
  by rewrite (proj2 (Z.ltb_lt n 0)) by lia.
Qed.

Lemma itertools_product_not_ssize_t {A} (pool : list A) (n : Z) :
  n < - 2 ^ 63 ∨ 2 ^ 63 ≤ n →
  itertools_product pool n
  = Raise (OverflowError "Python int too large to convert to C ssize_t").
Proof.
  intros Hn. unfold itertools_product.
  assert ((n <? - PY_SSIZE_T_MAX - 1) || (PY_SSIZE_T_MAX <? n) = true) as ->; [|done].
  apply orb_true_iff. rewrite Z.ltb_lt, Z.ltb_lt. unfold PY_SSIZE_T_MAX. lia.
Qed.

Lemma itertools_product_too_large {A} (pool : list A) (n : Z) :
  2 ^ 60 ≤ n < 2 ^ 63 →
  itertools_product pool n = Raise (OverflowError "repeat argument too large").
Proof.
  intros Hn. unfold itertools_product.
  rewrite (proj2 (Z.ltb_ge n (- PY_SSIZE_T_MAX - 1))) by (unfold PY_SSIZE_T_MAX; lia).
  rewrite (proj2 (Z.ltb_ge PY_SSIZE_T_MAX n)) by (unfold PY_SSIZE_T_MAX; lia).
  rewrite (proj2 (Z.ltb_ge n 0)) by lia. cbn [orb].
  rewrite (proj2 (Z.eqb_neq n 0)) by lia. cbn [orb].
  rewrite addressable_indices.
  rewrite (proj2 (Z.leb_gt 1 _)); [done|]. apply Z.div_lt_upper_bound; lia.
Qed.

(** Whenever the constructor returns, [repeat] is a count of positions
    and the result is the list of the loop. *)
Lemma itertools_product_inv {A} (pool : list A) (n : Z) (prods : list (list A)) :
  itertools_product pool n = Ok prods →
  0 ≤ n < 2 ^ 60 ∧ prods = product_pools pool (Z.to_nat n).
Proof.
  intros Hprods.
  destruct (decide (n < - 2 ^ 63 ∨ 2 ^ 63 ≤ n)) as [Hout|Hin].
  { by rewrite itertools_product_not_ssize_t in Hprods. }
  destruct (decide (n < 0)) as [Hneg|Hnn].
  { rewrite itertools_product_neg in Hprods by lia. done. }
  destruct (decide (2 ^ 60 ≤ n)) as [Hlarge|Hsmall].
  { rewrite itertools_product_too_large in Hprods by lia. done. }
  rewrite itertools_product_nonneg in Hprods by lia.
  split; [lia|]. by injection Hprods as <-.
Qed.

Lemma generate_ngram_occurences_nonneg (sequence : pystr) (n : Z) :
  0 ≤ n < 2 ^ 60 →
  generate_ngram_occurences sequence n
  = Ok (map (str_count sequence) (kmers (Z.to_nat n))).
Proof.
  intros Hn. unfold generate_ngram_occurences.
  rewrite itertools_product_nonneg by done. done.
Qed.

(** Whenever the occurrence extractor returns, it returns the counts of
    the k-mers, in the order of the k-mer list. *)
Lemma generate_ngram_occurences_inv (sequence : pystr) (n : Z) (occ : list Z) :
  generate_ngram_occurences sequence n = Ok occ →
  0 ≤ n < 2 ^ 60 ∧ occ = map (str_count sequence) (kmers (Z.to_nat n)).
Proof.
  unfold generate_ngram_occurences.
  destruct (itertools_product (iter_str amino_acids) n) as [prods|] eqn:Hprods; [|done].
  apply itertools_product_inv in Hprods as [Hn ->]. cbn. by intros [= <-].
Qed.

Lemma generate_ngram_composition_nonneg (sequence : pystr) (n : Z) :
  0 ≤ n < 2 ^ 60 → sequence ≠ [] →
  generate_ngram_composition sequence n
  = Ok (map (λ ngram, round_ndigits
                        (int_truediv (str_count sequence ngram) (len sequence)) 3)
            (kmers (Z.to_nat n))).
Proof.
  intros Hn Hseq. unfold generate_ngram_composition.
  rewrite itertools_product_nonneg by done. cbn. fold (kmers (Z.to_nat n)).
  apply mapM_result_Ok, Forall_true. intros ngram. unfold py_truediv.
  assert ((len sequence =? 0) = false) as ->; [|done].
  apply Z.eqb_neq. unfold len. destruct sequence; [done|simpl; lia].
Qed.

Lemma generate_ngram_composition_empty (n : Z) :
  0 ≤ n < 2 ^ 60 → generate_ngram_composition [] n = Raise ZeroDivisionError.
Proof.
  intros Hn. unfold generate_ngram_composition.
  rewrite itertools_product_nonneg by done. cbn. fold (kmers (Z.to_nat n)).
  apply mapM_result_Raise; [apply kmers_nonempty|done].
Qed.

End ExtractorFacts.

(** ** Counting *)

Section Count.
Implicit Types (s sub : pystr) (ps : list nat).

Lemma startswith_prefix s sub : startswith s sub = true ↔ take (length sub) s = sub.
Proof.
  revert s. induction sub as [|b sub IH]; intros [|a s]; simpl; try done.
  case_decide as Hab.
  - subst. rewrite IH. split; [by intros ->|by intros [= ?]].
  - split; [done|]. by intros [= ? _].
Qed.

Lemma startswith_occurs_at s sub : startswith s sub = true ↔ occurs_at sub s 0.
Proof. apply startswith_prefix. Qed.

Lemma startswith_length s sub : startswith s sub = true → (length sub ≤ length s)%nat.
Proof.
  intros Hs%startswith_prefix. apply (f_equal length) in Hs.
  rewrite length_take in Hs. lia.
Qed.

Lemma occurs_at_S sub c s i : occurs_at sub (c :: s) (S i) ↔ occurs_at sub s i.
Proof. done. Qed.

Lemma occurs_at_nil sub i : sub ≠ [] → ¬ occurs_at sub [] i.
Proof.
  unfold occurs_at. rewrite drop_nil, take_nil. intros Hsub Heq. by apply Hsub.
Qed.

(** The scan never counts more matches than fit side by side. *)
Lemma count_scan_bound sub skip s :
  sub ≠ [] → (count_scan sub skip s * length sub ≤ length s - skip)%nat.
Proof.
  intros Hsub. revert skip. induction s as [|c s IH]; intros skip; [simpl; lia|].
  cbn [count_scan length]. destruct skip as [|j].
  - destruct (startswith (c :: s) sub) eqn:Hm.
    + apply startswith_length in Hm. cbn [length] in Hm.
      specialize (IH (length sub - 1)%nat). lia.
    + specialize (IH 0%nat). lia.
  - specialize (IH j). lia.
Qed.

(** The positions counted by the scan. *)
Lemma count_scan_matches sub skip s :
  sub ≠ [] →
  ∃ ps, length ps = count_scan sub skip s
        ∧ non_overlapping (length sub) ps
        ∧ Forall (λ p, (skip ≤ p)%nat ∧ occurs_at sub s p) ps.
Proof.
  intros Hsub. revert skip. induction s as [|c s IH]; intros skip.
  - exists []. by repeat split.
  - assert (∀ k, ∃ ps, length ps = count_scan sub k s
              ∧ non_overlapping (length sub) ps
              ∧ Forall (λ p, (S k ≤ p)%nat ∧ occurs_at sub (c :: s) p) ps) as shifted.
    { intros k. destruct (IH k) as (ps & Hlen & Hsep & Hocc).
      exists (S <$> ps). split_and!.
      - by rewrite length_fmap.
      - clear Hlen Hocc. induction ps as [|p ps IHps]; [done|].
        destruct Hsep as [Hp Hsep]. simpl. split; [|by apply IHps].
        apply Forall_fmap. eapply Forall_impl; [exact Hp|]. simpl. lia.
      - apply Forall_fmap. eapply Forall_impl; [exact Hocc|].
        intros p [Hk Hp]. simpl. split; [lia|]. by apply occurs_at_S. }
    cbn [count_scan]. destruct skip as [|j].
    + destruct (startswith (c :: s) sub) eqn:Hm.
      * destruct (shifted (length sub - 1)%nat) as (ps & Hlen & Hsep & Hocc).
        exists (0%nat :: ps). split_and!.
        -- simpl. by rewrite Hlen.
        -- simpl. split; [|done]. eapply Forall_impl; [exact Hocc|].
           simpl. intros p [Hp _]. lia.
        -- constructor.
           ++ split; [lia|]. by apply startswith_occurs_at.
           ++ eapply Forall_impl; [exact Hocc|]. simpl. intros p [_ Hp].
              split; [lia|done].
      * destruct (shifted 0%nat) as (ps & Hlen & Hsep & Hocc).
        exists ps. split_and!; [done..|].
        eapply Forall_impl; [exact Hocc|]. simpl. intros p [_ Hp]. split; [lia|done].
    + destruct (shifted j) as (ps & Hlen & Hsep & Hocc). by exists ps.
Qed.

(** No choice of pairwise disjoint occurrences is larger than the
    scan's. *)
Lemma count_scan_maximal sub skip s ps :
  sub ≠ [] → non_overlapping (length sub) ps →
  Forall (λ p, (skip ≤ p)%nat ∧ occurs_at sub s p) ps →
  (length ps ≤ count_scan sub skip s)%nat.
Proof.
  intros Hsub. revert skip ps. induction s as [|c s IH]; intros skip ps Hsep Hocc.
  - destruct ps as [|p ps]; [done|].
    apply Forall_cons in Hocc as [[_ Hp] _]. by apply occurs_at_nil in Hp.
  - assert (∀ k qs, non_overlapping (length sub) qs →
              Forall (λ p, (S k ≤ p)%nat ∧ occurs_at sub (c :: s) p) qs →
              (length qs ≤ count_scan sub k s)%nat) as shifted.
    { intros k qs Hqs Hall.
      rewrite <- (length_fmap Nat.pred qs). apply IH.
      - clear IH. induction qs as [|q qs IHqs]; [done|].
        destruct Hqs as [Hq Hqs]. apply Forall_cons in Hall as [[Hk _] Hall].
        simpl. split; [|by apply IHqs].
        apply Forall_fmap. apply Forall_forall. intros q' Hq'.
        rewrite Forall_forall in Hq. specialize (Hq q' Hq'). simpl. lia.
      - apply Forall_fmap. eapply Forall_impl; [exact Hall|].
        intros [|p] [Hk Hp]; [lia|]. simpl. split; [lia|]. by apply occurs_at_S in Hp. }
    cbn [count_scan]. destruct skip as [|j].
    + destruct (startswith (c :: s) sub) eqn:Hm.
      * destruct ps as [|p ps]; [simpl; lia|].
        destruct Hsep as [Hp Hsep]. apply Forall_cons in Hocc as [_ Hocc].
        simpl. apply le_n_S. apply shifted; [done|].
        apply Forall_forall. intros q Hq.
        rewrite Forall_forall in Hp, Hocc.
        specialize (Hp q Hq). destruct (Hocc q Hq) as [_ Hoq].
        split; [|done]. destruct sub; [done|]. simpl in *. lia.
      * apply shifted; [done|].
        eapply Forall_impl; [exact Hocc|]. intros [|p] [_ Hp].
        -- apply startswith_occurs_at in Hp. congruence.
        -- split; [lia|done].
    + by apply shifted.
Qed.

Lemma str_count_nonneg s sub : 0 ≤ str_count s sub.
Proof. unfold str_count, len. destruct sub; lia. Qed.

Lemma str_count_bound s sub :
  sub ≠ [] → str_count s sub * len sub ≤ len s.
Proof.
  intros Hsub. pose proof (count_scan_bound sub 0 s Hsub) as Hb.
  unfold str_count, len. destruct sub; [done|]. rewrite Nat.sub_0_r in Hb. nia.
Qed.

End Count.

(** ** Occurrence counts *)

Lemma str_count_max_disjoint (s sub : pystr) :
  sub ≠ [] → max_disjoint_matches s sub (str_count s sub).
Proof.
  intros Hsub. assert (str_count s sub = Z.of_nat (count_scan sub 0 s)) as ->.
  { by destruct sub. }
  split.
  - destruct (count_scan_matches sub 0 s Hsub) as (ps & Hlen & Hsep & Hocc).
    exists ps. unfold len. rewrite Hlen. split_and!; [done..|].
    eapply Forall_impl; [exact Hocc|]. by intros p [_ ?].
  - intros ps Hsep Hocc. unfold len. apply inj_le.
    apply count_scan_maximal; [done..|].
    eapply Forall_impl; [exact Hocc|]. intros p ?. split; [lia|done].
Qed.

(** C1, as the code has it. For every sequence [S], every [k >= 1] and
    every k-mer [m]: whenever the occurrence extractor returns, and for
    [k] in {1, 2, 3} it does, the entry of the occurrence vector at the
    index of [m] is the largest number of pairwise non-overlapping
    occurrences of [m] in [S], the count of [str.count]; in particular the
    entry for ["AA"] in the occurrence vector of ["AAA"] is 1. *)
Theorem occurrence_counts_disjoint_matches (S : pystr) (k : Z) :
  1 ≤ k →
  (k ≤ 3 → is_Ok (generate_ngram_occurences S k))
  ∧ (∀ occ, generate_ngram_occurences S k = Ok occ →
       ∀ (i : nat) (m : pystr), kmers (Z.to_nat k) !! i = Some m →
         ∃ c, occ !! i = Some c ∧ c = str_count S m ∧ max_disjoint_matches S m c)
  ∧ str_count (str "AAA") (str "AA") = 1.
Proof.
  intros Hk. split.
  { intros Hk3. eexists. apply generate_ngram_occurences_nonneg. lia. }
  split; [|done]. intros occ [_ ->]%generate_ngram_occurences_inv i m Hm.
  exists (str_count S m).
  split; [by rewrite list_lookup_fmap, Hm|]. split; [done|].
  apply str_count_max_disjoint.
  pose proof (kmers_length (Z.to_nat k)) as Hlen.
  rewrite Forall_forall in Hlen. specialize (Hlen m (list_elem_of_lookup_2 _ _ _ Hm)).
  intros ->. simpl in Hlen. lia.
Qed.

Lemma occurrence_counts_disjoint_matches_witness :
  1 ≤ 2
  ∧ (2 ≤ 3 → is_Ok (generate_ngram_occurences (str "AAA") 2))
  ∧ (∀ occ, generate_ngram_occurences (str "AAA") 2 = Ok occ →
       ∀ (i : nat) (m : pystr), kmers (Z.to_nat 2) !! i = Some m →
         ∃ c, occ !! i = Some c ∧ c = str_count (str "AAA") m
              ∧ max_disjoint_matches (str "AAA") m c)
  ∧ str_count (str "AAA") (str "AA") = 1.
Proof. split; [lia|]. apply (occurrence_counts_disjoint_matches (str "AAA") 2). lia. Defined.

(** C1, as stated, fails: ["AA"] occurs at two positions of ["AAA"], the
    entry of the occurrence vector for it is 1. *)
Lemma occurrence_overlapping_counterexample :
  overlapping_count (str "AAA") (str "AA") = 2
  ∧ kmers 2 !! 0%nat = Some (str "AA")
  ∧ ∃ occ, generate_ngram_occurences (str "AAA") 2 = Ok occ
           ∧ occ !! 0%nat = Some 1
           ∧ occ !! 0%nat ≠ Some (overlapping_count (str "AAA") (str "AA")).
Proof.
  split; [by vm_compute|]. split; [by vm_compute|].
  eexists. split; [by vm_compute|]. split; [done|]. by vm_compute.
Qed.

(** C10, as the code has it. For every sequence [S] and every [k >= 1]:
    whenever the occurrence extractor returns, and for [k] in {1, 2, 3}
    it does, every entry is at most [len(S) // k], and for the empty
    sequence every entry is 0. *)
Theorem occurrence_bounded_by_disjoint_fit (S : pystr) (k : Z) :
  1 ≤ k →
  (k ≤ 3 → is_Ok (generate_ngram_occurences S k))
  ∧ ∀ occ, generate_ngram_occurences S k = Ok occ →
      Forall (λ c, 0 ≤ c ≤ len S `div` k) occ
      ∧ (S = [] → Forall (λ c, c = 0) occ).
Proof.
  intros Hk. split.
  { intros Hk3. eexists. apply generate_ngram_occurences_nonneg. lia. }
  intros occ [_ ->]%generate_ngram_occurences_inv.
  assert (Forall (λ c, 0 ≤ c ≤ len S `div` k)
            (map (str_count S) (kmers (Z.to_nat k)))) as Hbound.
  { apply Forall_fmap. eapply Forall_impl; [apply kmers_length|].
    intros m Hm. simpl in Hm |- *. split; [apply str_count_nonneg|].
    apply Z.div_le_lower_bound; [lia|].
    assert (len m = k) as <- by (unfold len; lia).
    rewrite Z.mul_comm. apply str_count_bound. intros ->. simpl in Hm. lia. }
  split; [done|]. intros ->. eapply Forall_impl; [exact Hbound|].
  intros c. simpl. unfold len. simpl. rewrite Z.div_0_l by lia. lia.
Qed.

Lemma occurrence_bounded_by_disjoint_fit_witness :
  1 ≤ 2
  ∧ (2 ≤ 3 → is_Ok (generate_ngram_occurences (str "AAA") 2))
  ∧ ∀ occ, generate_ngram_occurences (str "AAA") 2 = Ok occ →
      Forall (λ c, 0 ≤ c ≤ len (str "AAA") `div` 2) occ
      ∧ (str "AAA" = [] → Forall (λ c, c = 0) occ).
Proof. split; [lia|]. apply (occurrence_bounded_by_disjoint_fit (str "AAA") 2). lia. Defined.

(** C10, as stated, fails at [k = 2 ^ 60]: on the empty sequence the
    call does not return, [itertools.product] raises [OverflowError]. *)
Lemma occurrence_repeat_too_large_counterexample :
  1 ≤ 2 ^ 60
  ∧ generate_ngram_occurences [] (2 ^ 60)
    = Raise (OverflowError "repeat argument too large")
  ∧ ¬ is_Ok (generate_ngram_occurences [] (2 ^ 60)).
Proof.
  assert (generate_ngram_occurences [] (2 ^ 60)
          = Raise (OverflowError "repeat argument too large")) as Hrun.
  { unfold generate_ngram_occurences. by rewrite itertools_product_too_large by lia. }
  split; [lia|]. split; [exact Hrun|]. rewrite Hrun. by intros [? ?].
Qed.

(** ** Composition *)

(** C2. For every non-empty sequence [S] and every [k] in {1, 2, 3} both
    extractors return vectors of one length, every occurrence entry is a
    non-negative integer, and at every index of the [20 ^ k] k-mers the
    composition entry is the occurrence entry divided by [len(S)],
    rounded to 3 digits. *)
Theorem composition_is_rounded_occurrence_ratio {F : PyFloat} (S : pystr) (k : Z) :
  S ≠ [] → 1 ≤ k ≤ 3 →
  ∃ occ comp,
    generate_ngram_occurences S k = Ok occ
    ∧ generate_ngram_composition S k = Ok comp
    ∧ len occ = 20 ^ k
    ∧ length comp = length occ
    ∧ Forall (λ c, 0 ≤ c) occ
    ∧ ∀ (i : nat) c, occ !! i = Some c →
        comp !! i = Some (round_ndigits (int_truediv c (len S)) 3).
Proof.
  intros HS Hk. eexists _, _.
  split; [by apply generate_ngram_occurences_nonneg; lia|].
  split; [by apply generate_ngram_composition_nonneg; [lia|]|].
  split.
  { unfold len. rewrite length_map, length_kmers, Nat2Z.inj_pow. f_equal. lia. }
  split; [by rewrite !length_map|].
  split; [apply Forall_fmap, Forall_true; intros m; apply str_count_nonneg|].
  intros i c. rewrite !list_lookup_fmap.
  destruct (kmers (Z.to_nat k) !! i) as [m|]; [|done]. by intros [= <-].
Qed.

Lemma composition_is_rounded_occurrence_ratio_witness :
  str "AAC" ≠ [] ∧ 1 ≤ 1 ≤ 3 ∧
  ∃ occ comp,
    generate_ngram_occurences (str "AAC") 1 = Ok occ
    ∧ generate_ngram_composition (F := QFloat.instance) (str "AAC") 1 = Ok comp
    ∧ len occ = 20 ^ 1
    ∧ length comp = length occ
    ∧ Forall (λ c, 0 ≤ c) occ
    ∧ ∀ (i : nat) c, occ !! i = Some c →
        comp !! i = Some (round_ndigits (int_truediv c (len (str "AAC"))) 3).
Proof.
  split; [done|]. split; [lia|].
  apply (composition_is_rounded_occurrence_ratio (str "AAC") 1); [done|lia].
Defined.

(** C6. On the empty sequence the composition extractor raises
    [ZeroDivisionError] for every [k] in {1, 2, 3}: it returns no vector,
    so no [nan] entry and no silently computed quotient either. *)
Theorem composition_of_empty_raises {F : PyFloat} (k : Z) :
  1 ≤ k ≤ 3 →
  generate_ngram_composition [] k = Raise ZeroDivisionError
  ∧ ¬ is_Ok (generate_ngram_composition [] k).
Proof.
  intros Hk. rewrite generate_ngram_composition_empty by lia.
  split; [done|]. by intros [comp ?].
Qed.

Lemma composition_of_empty_raises_witness :
  1 ≤ 2 ≤ 3
  ∧ generate_ngram_composition (F := QFloat.instance) [] 2 = Raise ZeroDivisionError
  ∧ ¬ is_Ok (generate_ngram_composition (F := QFloat.instance) [] 2).
Proof. split; [lia|]. apply (composition_of_empty_raises 2). lia. Defined.

(** ** Invalid k *)

(** C5, as the code has it. For every [k < 0] the enumeration, and with
    it both extractors on every sequence, raises: the [ValueError] of
    [itertools.product] for a [k] from [- 2 ^ 63] on, and [OverflowError]
    for a [k] below, which is no [Py_ssize_t]. *)
Theorem negative_k_raises {F : PyFloat} (S : pystr) (k : Z) :
  k < 0 →
  let e := if decide (- 2 ^ 63 ≤ k)
           then ValueError "repeat argument cannot be negative"
           else OverflowError "Python int too large to convert to C ssize_t" in
  itertools_product (iter_str amino_acids) k = Raise e
  ∧ generate_ngram_occurences S k = Raise e
  ∧ generate_ngram_composition S k = Raise e.
Proof.
  intros Hk e. unfold generate_ngram_occurences, generate_ngram_composition.
  subst e. case_decide.
  - by rewrite itertools_product_neg by lia.
  - by rewrite itertools_product_not_ssize_t by lia.
Qed.

Lemma negative_k_raises_witness :
  -1 < 0 ∧
  let e := ValueError "repeat argument cannot be negative" in
  itertools_product (iter_str amino_acids) (-1) = Raise e
  ∧ generate_ngram_occurences (str "AC") (-1) = Raise e
  ∧ generate_ngram_composition (F := QFloat.instance) (str "AC") (-1) = Raise e.
Proof. split; [lia|]. apply (negative_k_raises (str "AC") (-1)). lia. Defined.

(** C5, as stated, fails at [k = 0]: the enumeration returns the one
    empty k-mer and the occurrence extractor returns a vector. *)
Lemma zero_k_returns_counterexample :
  0 < 1
  ∧ itertools_product (iter_str amino_acids) 0 = Ok [[]]
  ∧ generate_ngram_occurences (str "AC") 0 = Ok [3]
  ∧ is_Ok (generate_ngram_composition (F := QFloat.instance) (str "AC") 0).
Proof.
  split; [lia|]. split; [done|]. split; [done|]. eexists. reflexivity.
Qed.

(** ** The enumeration *)

(** C3. For every [k] in {1, 2, 3} the list of k-mers has [20 ^ k]
    entries of [k] symbols each, without duplicates; the symbol at
    position [j] of the entry at index [i] is the alphabet's symbol number
    [(i // 20 ^ (k - 1 - j)) % 20], so the rightmost position runs through
    the alphabet fastest; and both extractors map over this one list, in
    this order, on every call. *)
Theorem kmers_enumeration (k : Z) :
  1 ≤ k ≤ 3 →
  let L := kmers (Z.to_nat k) in
  itertools_product (iter_str amino_acids) k
    = Ok (product_pools (iter_str amino_acids) (Z.to_nat k))
  ∧ len L = 20 ^ k
  ∧ Forall (λ m, len m = k) L
  ∧ NoDup L
  ∧ (∀ i : nat, (i < 20 ^ Z.to_nat k)%nat →
       ∃ m, L !! i = Some m ∧
         ∀ j : nat, (j < Z.to_nat k)%nat →
           m !! j = amino_acids !! ((i `div` 20 ^ (Z.to_nat k - 1 - j)) `mod` 20)%nat)
  ∧ (∀ S : pystr, generate_ngram_occurences S k = Ok (map (str_count S) L))
  ∧ (∀ (F : PyFloat) (S : pystr), S ≠ [] →
       generate_ngram_composition S k
       = Ok (map (λ m, round_ndigits (int_truediv (str_count S m) (len S)) 3) L)).
Proof.
  intros Hk L. subst L. split_and!.
  - apply itertools_product_nonneg. lia.
  - unfold len. rewrite length_kmers, Nat2Z.inj_pow. f_equal. lia.
  - eapply Forall_impl; [apply kmers_length|]. intros m Hm. simpl in Hm.
    unfold len. lia.
  - apply NoDup_kmers.
  - apply lookup_kmers.
  - intros S. apply generate_ngram_occurences_nonneg. lia.
  - intros F S HS. apply generate_ngram_composition_nonneg; [lia|done].
Qed.

Lemma kmers_enumeration_witness :
  1 ≤ 2 ≤ 3 ∧ len (kmers (Z.to_nat 2)) = 20 ^ 2 ∧ NoDup (kmers (Z.to_nat 2)).
Proof.
  split; [lia|].
  pose proof (kmers_enumeration 2 ltac:(lia)) as (_ & Hlen & _ & Hnodup & _).
  split; [exact Hlen|exact Hnodup].
Defined.
(** ** Feature columns *)

Section FeatureFacts.
Context {F : PyFloat}.
Implicit Types (df : DataFrame) (r : row) (features : list string).

(** Decide the next string test of an [if] chain; in the branch where it
    holds the tested name is substituted. *)
Ltac case_feature :=
  match goal with
  | |- context [String.eqb ?a ?b] =>
      let H := fresh "Hfeat" in
      destruct (String.eqb a b) eqn:H; [apply String.eqb_eq in H; subst|]
  end.

Lemma column_of_recognised feat_name :
  column_of feat_name ∈ recognised_features.
Proof.
  unfold column_of, recognised_features.
  repeat (case_match; [set_solver|]). set_solver.
Qed.

Lemma column_of_id feat_name :
  feat_name ∈ recognised_features → column_of feat_name = feat_name.
Proof.
  unfold recognised_features. rewrite !elem_of_cons, elem_of_nil.
  intros [->|[->|[->|[->|[->|[]]]]]]; reflexivity.
Qed.

Lemma column_of_unrecognised feat_name :
  feat_name ∉ recognised_features → column_of feat_name = "BigramOccur".
Proof.
  unfold column_of, recognised_features. intros Hnot.
  repeat (case_feature; [set_solver|]). done.
Qed.

Lemma extractor_column_of feat_name :
  extractor (column_of feat_name) = extractor feat_name.
Proof.
  unfold column_of. repeat (case_feature; [reflexivity|]).
  unfold extractor. by rewrite Hfeat, Hfeat0, Hfeat1, Hfeat2.
Qed.

Lemma extractor_unrecognised feat_name :
  feat_name ∉ recognised_features → extractor feat_name = occurence_values 2.
Proof.
  intros Hnot. rewrite <- extractor_column_of, column_of_unrecognised by done. done.
Qed.

Lemma generate_feature_unfold df feat_name :
  generate_feature df feat_name
  = col ← apply_sequence df (extractor feat_name);
    mret (df_setitem df (column_of feat_name) col).
Proof.
  unfold generate_feature, extractor, column_of. by repeat case_match.
Qed.


Lemma mapM_result_fmap_Ok {A B C} (f : B → result C) (h : A → B) (g : A → C) (l : list A) :
  Forall (λ x, f (h x) = Ok (g x)) l → mapM f (h <$> l) = Ok (g <$> l).
Proof.
  induction 1 as [|x l Hx _ IH]; [done|].
  rewrite fmap_cons, mapM_result_cons, Hx, IH. done.
Qed.

Lemma zip_with_fmap_same {A B C D} (f : B → C → D) (h1 : A → B) (h2 : A → C) (l : list A) :
  zip_with f (h1 <$> l) (h2 <$> l) = (λ x, f (h1 x) (h2 x)) <$> l.
Proof. induction l as [|x l IH]; [done|]. simpl. by f_equal. Qed.

Lemma extractable_block features feat_name r :
  extractable features r → feat_name ∈ features →
  extractor feat_name (seq_of r) = Ok (block feat_name (seq_of r)).
Proof.
  intros (s & Hs & Hall) Hin. rewrite Forall_forall in Hall.
  destruct (Hall _ Hin) as [l Hl]. unfold block, seq_of. by rewrite Hs, Hl.
Qed.

Lemma extractable_sequence features r :
  extractable features r → r !! "Sequence" = Some (CStr (seq_of r)).
Proof. intros (s & Hs & _). unfold seq_of. by rewrite Hs. Qed.

Lemma apply_sequence_ok df feat_name :
  Forall (extractable [feat_name]) df →
  apply_sequence df (extractor feat_name)
  = Ok ((λ r, CList (block feat_name (seq_of r))) <$> df).
Proof.
  intros Hdf. unfold apply_sequence, df_getitem.
  rewrite <- (list_fmap_id df) at 1.
  rewrite (mapM_result_fmap_Ok _ _ (λ r, CStr (seq_of r))).
  - cbn. apply mapM_result_fmap_Ok.
    eapply Forall_impl; [exact Hdf|]. intros r Hr. simpl.
    rewrite (extractable_block [feat_name]); [done..|apply list_elem_of_here].
  - eapply Forall_impl; [exact Hdf|]. intros r Hr. simpl.
    by rewrite (extractable_sequence _ _ Hr).
Qed.

Lemma generate_feature_ok df feat_name :
  Forall (extractable [feat_name]) df →
  generate_feature df feat_name = Ok (with_feature feat_name <$> df).
Proof.
  intros Hdf. rewrite generate_feature_unfold, apply_sequence_ok by done. cbn.
  unfold df_setitem. rewrite <- (list_fmap_id df) at 1.
  by rewrite zip_with_fmap_same.
Qed.

Lemma Sequence_unrecognised : "Sequence" ∉ recognised_features.
Proof. apply (bool_decide_unpack _). by vm_compute. Qed.

Lemma Label_unrecognised : "Label" ∉ recognised_features.
Proof. apply (bool_decide_unpack _). by vm_compute. Qed.

Lemma lookup_with_feature_ne feat_name r c :
  c ∉ recognised_features → with_feature feat_name r !! c = r !! c.
Proof.
  intros Hc. unfold with_feature. apply lookup_insert_ne.
  intros Heq. apply Hc. rewrite <- Heq. apply column_of_recognised.
Qed.

Lemma seq_of_with_feature feat_name r : seq_of (with_feature feat_name r) = seq_of r.
Proof.
  unfold seq_of. by rewrite lookup_with_feature_ne by apply Sequence_unrecognised.
Qed.

Lemma extractable_with_feature features feat_name r :
  extractable features r → extractable features (with_feature feat_name r).
Proof.
  intros (s & Hs & Hall). exists s. split; [|done].
  by rewrite lookup_with_feature_ne by apply Sequence_unrecognised.
Qed.

Lemma extractable_cons feat_name features r :
  extractable (feat_name :: features) r
  → extractable [feat_name] r ∧ extractable features r.
Proof.
  intros (s & Hs & Hall). apply Forall_cons in Hall as [Hf Hall].
  split; exists s; (split; [done|]); [by constructor|done].
Qed.

Lemma generate_features_ok df features :
  Forall (extractable features) df →
  generate_features df features = Ok (with_features features <$> df).
Proof.
  revert df. induction features as [|feat_name features IH]; intros df Hdf.
  - simpl. by rewrite list_fmap_id.
  - cbn [generate_features]. rewrite generate_feature_ok.
    + cbn. rewrite IH.
      * by rewrite <- list_fmap_compose.
      * apply Forall_fmap. eapply Forall_impl; [exact Hdf|]. intros r Hr. simpl.
        apply extractable_with_feature. by apply extractable_cons in Hr as [_ ?].
    + eapply Forall_impl; [exact Hdf|]. intros r Hr.
      by apply extractable_cons in Hr as [? _].
Qed.

Lemma block_column_of feat_name s : block (column_of feat_name) s = block feat_name s.
Proof. unfold block. by rewrite extractor_column_of. Qed.

(** A column written by [generate_features] holds the vector of its own
    extractor, whatever else was generated; other columns are untouched. *)
Lemma lookup_with_features features r c :
  with_features features r !! c
  = if decide (c ∈ column_of <$> features)
    then Some (CList (block c (seq_of r)))
    else r !! c.
Proof.
  revert r. induction features as [|f features IH]; intros r.
  - rewrite decide_False; [done|]. apply not_elem_of_nil.
  - change (with_features (f :: features) r)
      with (with_features features (with_feature f r)).
    rewrite IH, seq_of_with_feature, fmap_cons.
    destruct (decide (c ∈ column_of <$> features)) as [Hin|Hnin].
    + rewrite decide_True; [done|]. apply elem_of_cons. by right.
    + destruct (decide (c = column_of f)) as [->|Hne].
      * rewrite decide_True by (apply elem_of_cons; by left).
        unfold with_feature. by rewrite lookup_insert_eq, block_column_of.
      * rewrite decide_False by (rewrite elem_of_cons; tauto).
        unfold with_feature. by rewrite lookup_insert_ne.
Qed.

Lemma concatenate_from_lists r (b : string → list value) columns acc :
  Forall (λ c, r !! c = Some (CList (b c))) columns →
  concatenate_from acc r columns = Ok (acc ++ concat (b <$> columns)).
Proof.
  intros Hcols. revert acc. induction Hcols as [|c columns Hc _ IH]; intros acc.
  - simpl. by rewrite app_nil_r.
  - simpl. rewrite Hc. cbn. rewrite IH. by rewrite <- app_assoc.
Qed.

End FeatureFacts.
(** Decide the next test of an identifier against a literal. *)
Ltac case_identifier :=
  match goal with
  | |- context [String.eqb ?a ?b] =>
      let H := fresh "Hid" in
      destruct (String.eqb a b) eqn:H; [apply String.eqb_eq in H; subst|]
  end.

Section Rows.
Context {F : PyFloat}.
Implicit Types (df : DataFrame) (r : row) (features : list string).

Lemma composition_values_Ok (n : Z) (s : pystr) :
  0 ≤ n < 2 ^ 60 → s ≠ [] →
  ∃ l, composition_values n s = Ok l ∧ length l = (20 ^ Z.to_nat n)%nat.
Proof.
  intros Hn Hs. unfold composition_values.
  rewrite generate_ngram_composition_nonneg by done.
  eexists. split; [done|]. by rewrite !length_map, length_kmers.
Qed.

Lemma occurence_values_Ok (n : Z) (s : pystr) :
  0 ≤ n < 2 ^ 60 →
  occurence_values n s = Ok (map VInt (map (str_count s) (kmers (Z.to_nat n)))).
Proof.
  intros Hn. unfold occurence_values.
  by rewrite generate_ngram_occurences_nonneg.
Qed.

Lemma extractable_blocks features r :
  extractable features r →
  Forall2 (λ f b, extractor f (seq_of r) = Ok b)
          features ((λ f, block f (seq_of r)) <$> features).
Proof.
  intros Hr. apply Forall2_fmap_r, Forall_Forall2_diag, Forall_forall.
  intros f Hf. by apply (extractable_block features).
Qed.

Lemma length_concat_widths {A} (ls : list (list A)) :
  length (concat ls) = sum_list (length <$> ls).
Proof. induction ls as [|l ls IH]; [done|]. simpl. rewrite length_app, IH. done. Qed.

(** The vector an extractor returns has the width of its identifier,
    whatever the sequence. *)
Lemma extractor_width feat_name (s : pystr) (b : list value) :
  extractor feat_name s = Ok b → length b = feature_width feat_name.
Proof.
  assert (∀ n, 0 ≤ n < 2 ^ 60 →
            composition_values n s = Ok b → length b = (20 ^ Z.to_nat n)%nat)
    as Hcomp.
  { intros n Hn Hb. destruct (decide (s = [])) as [->|Hne].
    - unfold composition_values in Hb.
      by rewrite generate_ngram_composition_empty in Hb.
    - destruct (composition_values_Ok n s Hn Hne) as (l & Hl & Hlen). congruence. }
  assert (∀ n, 0 ≤ n < 2 ^ 60 →
            occurence_values n s = Ok b → length b = (20 ^ Z.to_nat n)%nat)
    as Hocc.
  { intros n Hn Hb. rewrite occurence_values_Ok in Hb by done. injection Hb as <-.
    by rewrite !length_map, length_kmers. }
  unfold extractor, feature_width.
  repeat (case_identifier;
          [intros Hb; first [by apply Hcomp in Hb; [|lia]|by apply Hocc in Hb; [|lia]]|]).
  intros Hb. by apply Hocc in Hb; [|lia].
Qed.

Lemma length_blocks features r :
  extractable features r →
  length (concat ((λ f, block f (seq_of r)) <$> features))
  = sum_list (feature_width <$> features).
Proof.
  intros Hr. rewrite length_concat_widths, <- list_fmap_compose. f_equal.
  apply list_fmap_ext. intros _ f Hf%list_elem_of_lookup_2. simpl.
  eapply extractor_width, extractable_block; [exact Hr|done].
Qed.

End Rows.

(** ** Selection of columns and the matrix *)

Section Selection.
Context {F : PyFloat}.
Implicit Types (df : DataFrame) (r : row) (names : list string).

Lemma df_getitem_fmap_Ok {A} (h : A → row) (name : string) (g : A → cell) (l : list A) :
  Forall (λ x, h x !! name = Some (g x)) l → df_getitem (h <$> l) name = Ok (g <$> l).
Proof.
  intros Hl. unfold df_getitem. apply mapM_result_fmap_Ok.
  eapply Forall_impl; [exact Hl|]. intros x Hx. cbv beta. by rewrite Hx.
Qed.

Lemma has_column_Forall df name :
  has_column df name ↔ Forall (λ r, is_Some (r !! name)) df.
Proof.
  unfold has_column. rewrite forallb_True. apply Forall_iff. intros r.
  apply bool_decide_spec.
Qed.

Lemma has_column_cons_None r df name : r !! name = None → ¬ has_column (r :: df) name.
Proof.
  intros Hr [Hsome _]%has_column_Forall%Forall_cons. rewrite Hr in Hsome.
  by destruct Hsome.
Qed.

Lemma df_getitem_list_Ok df names :
  Forall (λ name, has_column df name) names →
  df_getitem_list df names
  = Ok ((λ r : row, filter (λ kv : string * cell, kv.1 ∈ names) r) <$> df).
Proof.
  intros Hall. unfold df_getitem_list.
  assert (filter (λ name, ¬ has_column df name) names = []) as ->; [|done].
  induction Hall as [|name names' Hname _ IH]; [done|].
  rewrite filter_cons_False by tauto. done.
Qed.

Lemma lookup_selected r names name :
  name ∈ names → filter (λ kv : string * cell, kv.1 ∈ names) r !! name = r !! name.
Proof.
  intros Hin. rewrite map_lookup_filter. destruct (r !! name) as [c|]; [|done].
  simpl. by rewrite option_guard_True.
Qed.

Lemma np_array_rectangular (n : nat) (rows : list (list value)) :
  Forall (λ x, length x = n) rows → np_array rows = Ok rows.
Proof.
  intros Hrows. destruct Hrows as [|x rows Hx Hrows]; [done|]. unfold np_array.
  assert (forallb (λ y, length y =? length x)%nat rows = true) as ->; [|done].
  apply Is_true_true, forallb_True. eapply Forall_impl; [exact Hrows|].
  intros y Hy. apply Is_true_true, Nat.eqb_eq. congruence.
Qed.

Lemma np_array_ragged (x : list value) (rows : list (list value)) :
  Exists (λ y, length y ≠ length x) rows →
  np_array (x :: rows) = Raise (ValueError (inhomogeneous_shape (length (x :: rows)))).
Proof.
  intros Hex. unfold np_array.
  assert (forallb (λ y, length y =? length x)%nat rows = false) as ->; [|done].
  apply not_true_is_false. intros Hall%Is_true_true%forallb_True.
  apply Exists_exists in Hex as (y & Hy & Hne). rewrite Forall_forall in Hall.
  apply Hne, Nat.eqb_eq, Is_true_true, Hall, Hy.
Qed.

(** Whenever [np.array] returns, it returns the rows it was given. *)
Lemma np_array_inv (rows X : list (list value)) : np_array rows = Ok X → X = rows.
Proof.
  unfold np_array. destruct rows as [|x rows]; [by intros [= <-]|].
  case_match; [by intros [= <-]|done].
Qed.

End Selection.

Section Assembly.
Context {F : PyFloat}.
Implicit Types (df : DataFrame) (r : row) (features : list string).

(** The row vector of a record: the blocks of the requested features, in
    the order requested. *)
Lemma concatenate_columns_with_features features r :
  Forall (λ f, f ∈ recognised_features) features →
  concatenate_columns (with_features features r) features
  = Ok (concat ((λ f, block f (seq_of r)) <$> features)).
Proof.
  intros Hrec. unfold concatenate_columns.
  rewrite (concatenate_from_lists _ (λ f, block f (seq_of r))); [done|].
  apply Forall_forall. intros c Hc. rewrite lookup_with_features.
  rewrite decide_True; [done|].
  rewrite Forall_forall in Hrec.
  apply (list_elem_of_fmap_2' column_of _ c c Hc). symmetry.
  apply column_of_id, Hrec, Hc.
Qed.

Lemma assign_features_Ok {A} (h : A → row) (g : A → list value) (l : list A) features :
  (l = [] → features = []) →
  Forall (λ x, concatenate_columns (h x) features = Ok (g x)) l →
  assign_features (h <$> l) features
  = Ok ((λ x, <["Features" := CList (g x)]> (h x)) <$> l).
Proof.
  intros Hempty Hrows.
  assert (assign_features (h <$> l) features
          = rows ← mapM (λ r, concatenate_columns r features) (h <$> l);
            mret (df_setitem (h <$> l) "Features" (CList <$> rows))) as ->.
  { destruct l as [|x l]; [|done]. by rewrite Hempty. }
  rewrite (mapM_result_fmap_Ok _ _ g) by done. cbn [mbind result_bind].
  unfold df_setitem. by rewrite <- list_fmap_compose, zip_with_fmap_same.
Qed.

Lemma assign_features_first_raise r df features (e : exn) :
  concatenate_columns r features = Raise e →
  assign_features (r :: df) features = Raise e.
Proof.
  intros Hr.
  assert (assign_features (r :: df) features
          = rows ← mapM (λ r, concatenate_columns r features) (r :: df);
            mret (df_setitem (r :: df) "Features" (CList <$> rows))) as ->
    by (by destruct features).
  by rewrite mapM_result_cons, Hr.
Qed.

Lemma lookup_with_features_other features r c :
  c ∉ recognised_features → with_features features r !! c = r !! c.
Proof.
  intros Hc. rewrite lookup_with_features. rewrite decide_False; [done|].
  intros (f & Heq & _)%list_elem_of_fmap. apply Hc. rewrite Heq.
  apply column_of_recognised.
Qed.

(** The run up to the last line, on a table every extractor of the list
    returns on: the rows assembled, the labels and the sequences. *)
Lemma process_features_rows df features (g : row → list value) :
  (df = [] → features = []) →
  Forall (λ r, extractable features r ∧ is_Some (r !! "Label")) df →
  Forall (λ r, concatenate_columns (with_features features r) features = Ok (g r)) df →
  process_features df features
  = X ← np_array (g <$> df);
    mret (X, (λ r, default (CInt 0) (r !! "Label")) <$> df,
             (λ r, CStr (seq_of r)) <$> df).
Proof.
  intros Hempty Hdf Hrows. unfold process_features.
  rewrite generate_features_ok
    by (eapply Forall_impl; [exact Hdf|]; by intros r [? _]).
  cbn [mbind result_bind]. rewrite (assign_features_Ok _ g) by done.
  cbn [mbind result_bind].
  set (h := λ r : row, <["Features" := CList (g r)]> (with_features features r)).
  assert (∀ r, h r !! "Features" = Some (CList (g r))) as HF
    by (intros r; apply lookup_insert_eq).
  assert (Forall (λ r, h r !! "Label" = Some (default (CInt 0) (r !! "Label"))) df)
    as HL.
  { eapply Forall_impl; [exact Hdf|]. intros r [_ [c Hc]]. unfold h.
    rewrite lookup_insert_ne by done.
    rewrite lookup_with_features_other by apply Label_unrecognised. by rewrite Hc. }
  assert (Forall (λ r, h r !! "Sequence" = Some (CStr (seq_of r))) df) as HS.
  { eapply Forall_impl; [exact Hdf|]. intros r [Hr _]. unfold h.
    rewrite lookup_insert_ne by done.
    rewrite lookup_with_features_other by apply Sequence_unrecognised.
    by apply extractable_sequence in Hr. }
  rewrite df_getitem_list_Ok.
  2:{ repeat constructor; apply has_column_Forall, Forall_fmap.
      - apply Forall_true. intros r. unfold compose. rewrite HF. by eexists.
      - eapply Forall_impl; [exact HL|]. intros r Hr. unfold compose. rewrite Hr.
        by eexists.
      - eapply Forall_impl; [exact HS|]. intros r Hr. unfold compose. rewrite Hr.
        by eexists. }
  cbn [mbind result_bind]. rewrite <- list_fmap_compose.
  rewrite (df_getitem_fmap_Ok _ "Features" (λ r, CList (g r))).
  2:{ apply Forall_true. intros r. cbv beta. unfold compose.
      rewrite lookup_selected by (apply (bool_decide_unpack _); reflexivity). apply HF. }
  cbn [mbind result_bind].
  rewrite (mapM_result_fmap_Ok _ _ g) by (by apply Forall_true).
  cbn [mbind result_bind].
  rewrite (df_getitem_fmap_Ok _ "Label" (λ r, default (CInt 0) (r !! "Label"))).
  2:{ eapply Forall_impl; [exact HL|]. intros r Hr. cbv beta. unfold compose.
      by rewrite lookup_selected by (apply (bool_decide_unpack _); reflexivity). }
  cbn [mbind result_bind].
  rewrite (df_getitem_fmap_Ok _ "Sequence" (λ r, CStr (seq_of r))).
  2:{ eapply Forall_impl; [exact HS|]. intros r Hr. cbv beta. unfold compose.
      by rewrite lookup_selected by (apply (bool_decide_unpack _); reflexivity). }
  done.
Qed.

(** On a table with a record, for a list of the five identifiers whose
    extractors return on every record, the run returns the blocks of
    every record in the order of the list. *)
Lemma process_features_recognised df features :
  df ≠ [] →
  Forall (λ f, f ∈ recognised_features) features →
  Forall (λ r, extractable features r ∧ is_Some (r !! "Label")) df →
  process_features df features
  = Ok ((λ r, concat ((λ f, block f (seq_of r)) <$> features)) <$> df,
        (λ r, default (CInt 0) (r !! "Label")) <$> df,
        (λ r, CStr (seq_of r)) <$> df).
Proof.
  intros Hne Hrec Hdf.
  rewrite (process_features_rows _ _
             (λ r, concat ((λ f, block f (seq_of r)) <$> features))); [|done..|].
  - rewrite (np_array_rectangular (sum_list (feature_width <$> features))); [done|].
    apply Forall_fmap. eapply Forall_impl; [exact Hdf|]. intros r [Hr _].
    by apply length_blocks.
  - apply Forall_true. intros r. by apply concatenate_columns_with_features.
Qed.

End Assembly.

(** ** Row vectors *)

(** C4. On a table whose sequences are non-empty strings, feature
    generation for ["MonogramComp", "BigramComp"] gives every record a row
    vector of length 20 + 400 whose first 20 entries are the MonogramComp
    vector of the record's sequence and whose next 400 entries are its
    BigramComp vector; and for any list of the five generated identifiers
    the row vector is the concatenation of the identifiers' vectors in
    the order of the list. *)
Theorem row_vector_follows_feature_order {F : PyFloat} (df : DataFrame) :
  df ≠ [] →
  Forall (λ r : row, (∃ s, r !! "Sequence" = Some (CStr s) ∧ s ≠ [])
                     ∧ is_Some (r !! "Label")) df →
  (∃ X label sequences,
     process_features df ["MonogramComp"; "BigramComp"] = Ok (X, label, sequences)
     ∧ Forall2 (λ (r : row) x, ∃ s mono bi,
          r !! "Sequence" = Some (CStr s)
          ∧ composition_values 1 s = Ok mono
          ∧ composition_values 2 s = Ok bi
          ∧ length x = (20 + 400)%nat
          ∧ take 20 x = mono
          ∧ take 400 (drop 20 x) = bi) df X)
  ∧ (∀ features,
       Forall (λ f, f ∈ recognised_features) features →
       Forall (extractable features) df →
       ∃ X label sequences,
         process_features df features = Ok (X, label, sequences)
         ∧ Forall2 (λ (r : row) x, ∃ s blocks,
              r !! "Sequence" = Some (CStr s)
              ∧ Forall2 (λ f b, extractor f s = Ok b) features blocks
              ∧ x = concat blocks) df X).
Proof.
  intros Hrecord Hdf. split.
  - assert (Forall (λ r : row, extractable ["MonogramComp"; "BigramComp"] r
                               ∧ is_Some (r !! "Label")) df) as Hext.
    { eapply Forall_impl; [exact Hdf|]. intros r [(s & Hs & Hne) HL].
      split; [|done]. exists s. split; [done|].
      destruct (composition_values_Ok 1 s) as (l1 & Hl1 & _); [lia|done|].
      destruct (composition_values_Ok 2 s) as (l2 & Hl2 & _); [lia|done|].
      repeat constructor; eexists; [exact Hl1|exact Hl2]. }
    eexists _, _, _. split.
    { apply process_features_recognised; [exact Hrecord| |exact Hext].
      repeat constructor; apply (bool_decide_unpack _); by vm_compute. }
    apply Forall2_fmap_r, Forall_Forall2_diag.
    eapply Forall_impl; [exact Hdf|]. intros r [(s & Hs & Hne) _].
    destruct (composition_values_Ok 1 s) as (mono & Hmono & Hlen1); [lia|done|].
    destruct (composition_values_Ok 2 s) as (bi & Hbi & Hlen2); [lia|done|].
    exists s, mono, bi. cbn [fmap list_fmap concat].
    assert (seq_of r = s) as -> by (unfold seq_of; by rewrite Hs).
    assert (block "MonogramComp" s = mono) as ->.
    { unfold block. change (extractor "MonogramComp") with (composition_values 1).
      by rewrite Hmono. }
    assert (block "BigramComp" s = bi) as ->.
    { unfold block. change (extractor "BigramComp") with (composition_values 2).
      by rewrite Hbi. }
    change (Z.to_nat 1) with 1%nat in Hlen1. change (Z.to_nat 2) with 2%nat in Hlen2.
    change (20 ^ 1)%nat with 20%nat in Hlen1. change (20 ^ 2)%nat with 400%nat in Hlen2.
    rewrite app_nil_r.
    split_and!; [done..| | |].
    + rewrite length_app. lia.
    + by rewrite take_app_length'.
    + rewrite drop_app_length' by done. by rewrite take_ge by lia.
  - intros features Hrec Hext. eexists _, _, _. split.
    { apply process_features_recognised; [done..|].
      apply Forall_forall. intros r Hr.
      rewrite Forall_forall in Hdf, Hext. split; [by apply Hext|by apply Hdf]. }
    apply Forall2_fmap_r, Forall_Forall2_diag.
    eapply Forall_impl; [exact Hext|]. intros r Hr.
    exists (seq_of r), ((λ f, block f (seq_of r)) <$> features).
    split_and!; [by eapply extractable_sequence|by apply extractable_blocks|done].
Qed.
Lemma row_vector_follows_feature_order_witness :
  ∃ X label sequences,
    process_features (F := QFloat.instance) example_table ["MonogramComp"; "BigramComp"]
    = Ok (X, label, sequences)
    ∧ Forall (λ x, length x = (20 + 400)%nat) X.
Proof.
  destruct (row_vector_follows_feature_order (F := QFloat.instance) example_table)
    as [(X & label & sequences & Hrun & Hrows) _].
  - done.
  - repeat constructor; by eexists.
  - exists X, label, sequences. split; [exact Hrun|].
    clear Hrun. induction Hrows as [|r x df X (s & mono & bi & _ & _ & _ & Hlen & _) _ IH];
      constructor; [exact Hlen|exact IH].
Defined.

(** C7, as the code has it. For an identifier outside the five,
    [generate_features] does not fail: it writes the BigramOccur column,
    the occurrence vector for k = 2 of length 400, for every record. The
    row assembly then looks the identifier itself up in the record and,
    the table having no column of that name, raises [KeyError]: no row
    vector is produced. *)
Theorem unrecognised_feature_falls_back {F : PyFloat} (df : DataFrame) (feat_name : string) :
  feat_name ∉ recognised_features →
  df ≠ [] →
  Forall (λ r : row, (∃ s, r !! "Sequence" = Some (CStr s)) ∧ r !! feat_name = None) df →
  (∃ df', generate_features df [feat_name] = Ok df'
     ∧ Forall2 (λ (r r' : row), ∃ s occ,
          r !! "Sequence" = Some (CStr s)
          ∧ generate_ngram_occurences s 2 = Ok occ
          ∧ length occ = 400%nat
          ∧ r' = <["BigramOccur" := CList (map VInt occ)]> r) df df')
  ∧ process_features df [feat_name] = Raise (KeyError feat_name).
Proof.
  intros Hnot Hne Hdf.
  assert (Forall (extractable [feat_name]) df) as Hext.
  { eapply Forall_impl; [exact Hdf|]. intros r [[s Hs] _]. exists s.
    split; [done|]. repeat constructor.
    rewrite extractor_unrecognised, occurence_values_Ok by (done || lia). by eexists. }
  split.
  - eexists. split; [by apply generate_features_ok|].
    apply Forall2_fmap_r, Forall_Forall2_diag.
    eapply Forall_impl; [exact Hdf|]. intros r [[s Hs] _].
    exists s, (map (str_count s) (kmers 2)). split_and!; [done|done|..].
    + by rewrite length_map, length_kmers.
    + unfold with_features, with_feature. simpl foldl.
      rewrite column_of_unrecognised by done. unfold block.
      rewrite extractor_unrecognised, occurence_values_Ok by (done || lia).
      unfold seq_of. by rewrite Hs.
  - unfold process_features. rewrite generate_features_ok by done.
    cbn [mbind result_bind]. destruct df as [|r df]; [done|].
    apply Forall_cons in Hdf as [[_ Hr] _].
    rewrite fmap_cons, (assign_features_first_raise _ _ _ (KeyError feat_name)); [done|].
    change (with_features [feat_name] r) with (with_feature feat_name r).
    unfold concatenate_columns. cbn [concatenate_from].
    by rewrite lookup_with_feature_ne, Hr.
Qed.

Lemma unrecognised_feature_falls_back_witness :
  process_features (F := QFloat.instance) example_table ["TrigramOccur"]
  = Raise (KeyError "TrigramOccur").
Proof.
  apply (unrecognised_feature_falls_back (F := QFloat.instance) example_table "TrigramOccur").
  - apply (bool_decide_unpack _). by vm_compute.
  - done.
  - repeat constructor; by eexists.
Defined.

(** C7, as stated, fails: for the identifier "TrigramOccur" no row vector
    of length 400 is assembled, the run ends in [KeyError]. *)
Lemma unrecognised_feature_counterexample :
  ("TrigramOccur" ∉ recognised_features)
  ∧ process_features (F := QFloat.instance) example_table ["TrigramOccur"]
    = Raise (KeyError "TrigramOccur")
  ∧ ¬ is_Ok (process_features (F := QFloat.instance) example_table ["TrigramOccur"]).
Proof.
  assert (process_features (F := QFloat.instance) example_table ["TrigramOccur"]
          = Raise (KeyError "TrigramOccur")) as Hrun by reflexivity.
  split; [apply (bool_decide_unpack _); by vm_compute|].
  split; [exact Hrun|]. rewrite Hrun. by intros [? ?].
Qed.
(** ** The evaluation report *)

Section PredictFacts.
Context {F : PyFloat} {SK : Sklearn}.

Lemma select_model_unsupported (model : string) :
  model ≠ "svm-rbf" → model ≠ "svm-linear" → select_model model = None.
Proof.
  intros Hrbf Hlin. unfold select_model.
  rewrite (proj2 (String.eqb_neq _ _) Hrbf), (proj2 (String.eqb_neq _ _) Hlin). done.
Qed.

Lemma confusion_matrix_nonneg (y_true y_pred : list Z) (cm : list (list Z)) :
  confusion_matrix y_true y_pred = Ok cm → Forall (Forall (λ c, 0 ≤ c)) cm.
Proof.
  unfold confusion_matrix. case_decide; [|done].
  destruct (unique_labels y_true y_pred) as [|l labels] eqn:Hlabels; [done|].
  rewrite <- Hlabels. intros [= <-].
  apply Forall_fmap, Forall_true. intros t. simpl.
  apply Forall_fmap, Forall_true. intros p. simpl. unfold len. lia.
Qed.

Lemma cm_iadd_nonneg (cm : list (list Z)) (TN FP FN TP : Z) :
  Forall (Forall (λ c, 0 ≤ c)) cm →
  cm_iadd (0, 0, 0, 0) cm = Ok (TN, FP, FN, TP) →
  0 ≤ TN ∧ 0 ≤ FP ∧ 0 ≤ FN ∧ 0 ≤ TP.
Proof.
  intros Hcm. unfold cm_iadd.
  destruct cm as [|[|x [|y []]] [|[|z [|w []]] []]]; try done.
  - intros [= <- <- <- <-].
    apply Forall_cons in Hcm as [Hx _]. apply Forall_cons in Hx as [Hx _]. lia.
  - intros [= <- <- <- <-].
    apply Forall_cons in Hcm as [Hxy Hzw]. apply Forall_cons in Hzw as [Hzw _].
    apply Forall_cons in Hxy as [Hx Hy]. apply Forall_cons in Hy as [Hy _].
    apply Forall_cons in Hzw as [Hz Hw]. apply Forall_cons in Hw as [Hw _]. lia.
Qed.

End PredictFacts.

(** C8, as the code has it. For every model string other than "svm-rbf"
    and "svm-linear" the run ends with [UnboundLocalError] for [model1]
    at the call of [fit], with no event before it: no classifier is built
    or fitted, nothing is written or printed. *)
Theorem unsupported_model_raises_before_fit {F : PyFloat} {SK : Sklearn}
    (x_train : list (list value)) (y_train : list Z)
    (x_test : list (list value)) (y_test : list Z)
    (train_seq test_seq : list cell) (model : string) :
  model ≠ "svm-rbf" → model ≠ "svm-linear" →
  classifiers x_train y_train x_test y_test train_seq test_seq model
  = IO [] (Raise (UnboundLocalError "model1")).
Proof.
  intros Hrbf Hlin. unfold classifiers.
  by rewrite select_model_unsupported.
Qed.
Lemma unsupported_model_raises_before_fit_witness :
  classifiers (F := QFloat.instance) (SK := replay [] [] NaN NaN NaN NaN NaN)
    [] [] [] [] [] [] "svm-poly"
  = IO [] (Raise (UnboundLocalError "model1")).
Proof.
  apply (unsupported_model_raises_before_fit (F := QFloat.instance)); done.
Defined.

(** C8, as stated, fails: for "svm-poly" the exception raised is the
    [UnboundLocalError] of the local [model1]; its message names neither
    an unsupported model kind nor the model string. *)
Lemma unsupported_model_counterexample :
  let run := classifiers (F := QFloat.instance) (SK := replay [] [] NaN NaN NaN NaN NaN)
               [] [] [] [] [] [] "svm-poly" in
  outcome run = Raise (UnboundLocalError "model1")
  ∧ exn_message (UnboundLocalError "model1")
    = "cannot access local variable 'model1' where it is not associated with a value"%string
  ∧ contains (str (exn_message (UnboundLocalError "model1"))) (str "unsupported") = false
  ∧ contains (str (exn_message (UnboundLocalError "model1"))) (str "model kind") = false
  ∧ contains (str (exn_message (UnboundLocalError "model1"))) (str "svm-poly") = false.
Proof. cbv zeta. split_and!; reflexivity. Qed.

#[local] Arguments cm_iadd : simpl never.
#[local] Arguments confusion_matrix : simpl never.

(** C9, as the code has it. When the run reaches the report with
    TP + FN = 0 it raises nothing there: the NumPy division 0 / 0 yields
    [nan] and the line printed is "Sensitivity: nan%"; likewise
    "Specificity: nan%" when TN + FP = 0. The run ends normally. *)
Theorem absent_class_prints_nan {F : PyFloat} {SK : Sklearn}
    (x_train : list (list value)) (y_train : list Z)
    (x_test : list (list value)) (y_test : list Z)
    (train_seq test_seq : list cell) (model : string)
    (clf : SVC) (fit : fitted) (y_pred : list Z) (y_proba : list npfloat)
    (cm : list (list Z)) (TN FP FN TP : Z) (acc f1 mcc rec auc : npfloat) :
  select_model model = Some clf →
  svc_fit clf x_train y_train = Ok fit →
  svc_predict fit x_test = Ok y_pred →
  svc_predict_proba fit x_test = Ok y_proba →
  confusion_matrix y_test y_pred = Ok cm →
  cm_iadd (0, 0, 0, 0) cm = Ok (TN, FP, FN, TP) →
  accuracy_score y_test y_pred = Ok acc →
  f1_score y_test y_pred = Ok f1 →
  matthews_corrcoef y_test y_pred = Ok mcc →
  recall_score y_test y_pred = Ok rec →
  roc_auc y_test y_proba = Ok auc →
  length test_seq = length y_test →
  TP + FN = 0 ∨ TN + FP = 0 →
  let run := classifiers x_train y_train x_test y_test train_seq test_seq model in
  outcome run = Ok tt
  ∧ (TP + FN = 0 → EvPrint "Sensitivity: nan%" ∈ trace run)
  ∧ (TN + FP = 0 → EvPrint "Specificity: nan%" ∈ trace run).
Proof.
  intros Hsel Hfit Hpred Hproba Hcm Hadd Hacc Hf1 Hmcc Hrec Hauc Hlen Habsent run.
  pose proof (confusion_matrix_nonneg _ _ _ Hcm) as Hnn.
  pose proof (cm_iadd_nonneg _ _ _ _ _ Hnn Hadd) as (HTN & HFP & HFN & HTP).
  assert (length y_test = length y_pred) as Hlen'.
  { unfold confusion_matrix in Hcm. by case_decide. }
  subst run. unfold classifiers.
  rewrite Hsel. cbn. rewrite Hfit. cbn. rewrite Hpred. cbn. rewrite Hproba. cbn.
  rewrite Hcm. cbn. rewrite Hadd. cbn. rewrite Hacc. cbn. rewrite Hf1. cbn.
  rewrite Hmcc. cbn. rewrite Hrec. cbn. rewrite Hauc. cbn.
  unfold write_predictions. rewrite decide_True by (rewrite !length_map; lia).
  cbn. split; [done|]. split.
  - intros Hz. assert (TP = 0) as -> by lia. assert (FN = 0) as -> by lia.
    cbn. rewrite !elem_of_cons. tauto.
  - intros Hz. assert (TN = 0) as -> by lia. assert (FP = 0) as -> by lia.
    cbn. rewrite !elem_of_cons. tauto.
Qed.

Lemma absent_class_prints_nan_witness :
  let run := classifiers (SK := negatives_only_session)
               [] [] [[]; []] [0; 0] [] [CStr (str "GG"); CStr (str "GG")] "svm-linear" in
  outcome run = Ok tt
  ∧ (0 + 0 = 0 → EvPrint "Sensitivity: nan%" ∈ trace run)
  ∧ (1 + 1 = 0 → EvPrint "Specificity: nan%" ∈ trace run).
Proof.
  eapply (absent_class_prints_nan (F := QFloat.instance) (SK := negatives_only_session));
    try reflexivity.
  left. reflexivity.
Defined.

(** C9, as stated, fails: on a test set without a positive record the
    run raises no error; it ends normally, having printed
    "Sensitivity: nan%". *)
Lemma absent_class_counterexample :
  let run := classifiers (SK := negatives_only_session)
               [] [] [[]; []] [0; 0] [] [CStr (str "GG"); CStr (str "GG")] "svm-linear" in
  confusion_matrix [0; 0] [0; 1] = Ok [[1; 1]; [0; 0]]
  ∧ outcome run = Ok tt
  ∧ ¬ raises (outcome run)
  ∧ EvPrint "Sensitivity: nan%" ∈ trace run.
Proof.
  cbv zeta. split; [reflexivity|]. split; [reflexivity|].
  split; [intros [e He]; discriminate He|].
  apply (list_elem_of_lookup_2 _ 7%nat). reflexivity.
Qed.

(** * Further properties *)

(** ** The k-mer list is exhaustive *)

Lemma elem_of_product_step {A} (pool : list A) (P : list (list A)) (z : list A) :
  z ∈ product_step pool P ↔ ∃ x y, z = x ++ [y] ∧ x ∈ P ∧ y ∈ pool.
Proof.
  rewrite product_step_fmap, list_elem_of_bind. split.
  - intros (x & (y & -> & Hy)%list_elem_of_fmap & Hx). by exists x, y.
  - intros (x & y & -> & Hx & Hy). exists x. split; [|done].
    apply list_elem_of_fmap. by exists y.
Qed.

Lemma elem_of_product_pools {A} (pool : list A) (r : nat) (z : list A) :
  z ∈ product_pools pool r ↔ length z = r ∧ Forall (λ y, y ∈ pool) z.
Proof.
  revert z. induction r as [|r IH]; intros z.
  - simpl. rewrite list_elem_of_singleton. split.
    + by intros ->.
    + intros [Hlen _]. by destruct z.
  - rewrite product_pools_S, elem_of_product_step. split.
    + intros (x & y & -> & [Hlen Hall]%IH & Hy). split.
      * rewrite length_app, Hlen. simpl. lia.
      * apply Forall_app. split; [done|]. by constructor.
    + intros [Hlen Hall]. destruct z as [|y x _] using rev_ind; [done|].
      rewrite length_app in Hlen. simpl in Hlen.
      apply Forall_app in Hall as [Hx Hy]. apply Forall_cons in Hy as [Hy _].
      exists x, y. split; [done|]. split; [|done]. apply IH. split; [lia|done].
Qed.

Lemma elem_of_kmers (k : nat) (m : pystr) :
  m ∈ kmers k ↔ length m = k ∧ Forall (λ c, c ∈ amino_acids) m.
Proof. rewrite kmers_product_pools. apply elem_of_product_pools. Qed.

(** X1. A string is in the k-mer list exactly when it has [k] symbols,
    all of them from the alphabet: the enumeration misses no k-mer and
    holds nothing else. *)
Theorem kmers_exhaustive (k : nat) (m : pystr) :
  m ∈ kmers k ↔ length m = k ∧ Forall (λ c, c ∈ amino_acids) m.
Proof.
  split.
  - intros Hm. by apply elem_of_kmers.
  - intros [Hlen Hall]. by apply elem_of_kmers.
Qed.

(** ** What an occurrence entry says about the sequence *)

Lemma str_count_pos (s sub : pystr) :
  sub ≠ [] → 0 < str_count s sub ↔ ∃ p, occurs_at sub s p.
Proof.
  intros Hsub. destruct (str_count_max_disjoint s sub Hsub) as [(ps & Hlen & _ & Hocc) Hmax].
  split.
  - intros Hpos. destruct ps as [|p ps]; [unfold len in Hlen; simpl in Hlen; lia|].
    apply Forall_cons in Hocc as [Hp _]. by exists p.
  - intros [p Hp]. specialize (Hmax [p]). unfold len in Hmax. simpl in Hmax.
    enough (1 ≤ str_count s sub) by lia. apply Hmax.
    + split; [constructor|done].
    + by repeat constructor.
Qed.

Lemma kmers_lookup_nonempty (k : nat) (i : nat) (m : pystr) :
  (1 ≤ k)%nat → kmers k !! i = Some m → m ≠ [].
Proof.
  intros Hk Hm. pose proof (kmers_length k) as Hlen. rewrite Forall_forall in Hlen.
  specialize (Hlen m (list_elem_of_lookup_2 _ _ _ Hm)). intros ->. simpl in Hlen. lia.
Qed.

(** X2. For [k >= 1], whenever the occurrence extractor returns, and
    for [k] in {1, 2, 3} it does, the entry of the occurrence vector for
    a k-mer is positive exactly when the k-mer occurs somewhere in the
    sequence. *)
Theorem occurrence_positive_iff_occurs (S : pystr) (k : Z) :
  1 ≤ k →
  (k ≤ 3 → is_Ok (generate_ngram_occurences S k))
  ∧ ∀ occ, generate_ngram_occurences S k = Ok occ →
      ∀ (i : nat) (m : pystr), kmers (Z.to_nat k) !! i = Some m →
        ∃ c, occ !! i = Some c ∧ (0 < c ↔ ∃ p, occurs_at m S p).
Proof.
  intros Hk. split.
  { intros Hk3. eexists. apply generate_ngram_occurences_nonneg. lia. }
  intros occ [_ ->]%generate_ngram_occurences_inv i m Hm.
  exists (str_count S m). split; [by rewrite list_lookup_fmap, Hm|].
  apply str_count_pos. eapply kmers_lookup_nonempty; [|exact Hm]. lia.
Qed.

Lemma occurrence_positive_iff_occurs_witness :
  (1 ≤ 3 → is_Ok (generate_ngram_occurences (str "ACA") 1))
  ∧ ∀ occ, generate_ngram_occurences (str "ACA") 1 = Ok occ →
      ∀ (i : nat) (m : pystr), kmers (Z.to_nat 1) !! i = Some m →
        ∃ c, occ !! i = Some c ∧ (0 < c ↔ ∃ p, occurs_at m (str "ACA") p).
Proof. apply (occurrence_positive_iff_occurs (str "ACA") 1). lia. Defined.

(** ** Disjoint matches against all matches *)

Lemma non_overlapping_NoDup (m : nat) (ps : list nat) :
  (1 ≤ m)%nat → non_overlapping m ps → NoDup ps.
Proof.
  intros Hm. induction ps as [|p ps IH]; [constructor|].
  intros [Hp Hps]. constructor; [|by apply IH].
  intros Hin. rewrite Forall_forall in Hp. specialize (Hp p Hin). lia.
Qed.

Lemma occurs_at_lt (sub s : pystr) (p : nat) :
  sub ≠ [] → occurs_at sub s p → (p < length s)%nat.
Proof.
  intros Hsub Hp. destruct (decide (p < length s)%nat) as [|Hge]; [done|].
  unfold occurs_at in Hp. rewrite drop_ge, take_nil in Hp by lia. by destruct Hsub.
Qed.

Lemma str_count_le_overlapping (s sub : pystr) :
  sub ≠ [] → str_count s sub ≤ overlapping_count s sub.
Proof.
  intros Hsub.
  destruct (str_count_max_disjoint s sub Hsub) as [(ps & <- & Hsep & Hocc) _].
  unfold overlapping_count, len. apply inj_le, submseteq_length, NoDup_submseteq.
  - apply (non_overlapping_NoDup (length sub)); [|done]. destruct sub; [done|simpl; lia].
  - intros p Hp. rewrite Forall_forall in Hocc. specialize (Hocc p Hp).
    apply list_elem_of_filter. split; [done|].
    apply elem_of_seq. pose proof (occurs_at_lt _ _ _ Hsub Hocc). lia.
Qed.

Lemma non_overlapping_filter_seq (P : nat → Prop) `{∀ x, Decision (P x)} (a n : nat) :
  non_overlapping 1 (filter P (seq a n)) ∧ Forall (λ q, (a ≤ q)%nat) (filter P (seq a n)).
Proof.
  revert a. induction n as [|n IH]; intros a; [by split|].
  destruct (IH (S a)) as [Hsep Hge]. simpl seq. rewrite filter_cons.
  case_decide.
  - split.
    + simpl. split; [|done]. eapply Forall_impl; [exact Hge|]. simpl. lia.
    + constructor; [lia|]. eapply Forall_impl; [exact Hge|]. simpl. lia.
  - split; [done|]. eapply Forall_impl; [exact Hge|]. simpl. lia.
Qed.

Lemma str_count_single_overlapping (s : pystr) (c : ascii) :
  str_count s [c] = overlapping_count s [c].
Proof.
  apply Z.le_antisymm; [by apply str_count_le_overlapping|].
  destruct (str_count_max_disjoint s [c]) as [_ Hmax]; [done|].
  unfold overlapping_count. apply Hmax.
  - apply non_overlapping_filter_seq.
  - apply Forall_forall. by intros p [Hp _]%list_elem_of_filter.
Qed.

(** X3. For [k >= 1], whenever the occurrence extractor returns, and
    for [k] in {1, 2, 3} it does, an occurrence entry never exceeds the
    number of positions at which the k-mer occurs, and for [k = 1] it is
    that number: only for longer k-mers can the count fall short of the
    number of matching positions. *)
Theorem occurrence_le_matching_positions (S : pystr) (k : Z) :
  1 ≤ k →
  (k ≤ 3 → is_Ok (generate_ngram_occurences S k))
  ∧ ∀ occ, generate_ngram_occurences S k = Ok occ →
      ∀ (i : nat) (m : pystr), kmers (Z.to_nat k) !! i = Some m →
        ∃ c, occ !! i = Some c
             ∧ c ≤ overlapping_count S m
             ∧ (k = 1 → c = overlapping_count S m).
Proof.
  intros Hk. split.
  { intros Hk3. eexists. apply generate_ngram_occurences_nonneg. lia. }
  intros occ [_ ->]%generate_ngram_occurences_inv i m Hm.
  exists (str_count S m). split; [by rewrite list_lookup_fmap, Hm|].
  assert (m ≠ []) as Hne by (eapply kmers_lookup_nonempty; [|exact Hm]; lia).
  split; [by apply str_count_le_overlapping|].
  intros ->. pose proof (kmers_length (Z.to_nat 1)) as Hlen.
  rewrite Forall_forall in Hlen. specialize (Hlen m (list_elem_of_lookup_2 _ _ _ Hm)).
  destruct m as [|c [|]]; try done. apply str_count_single_overlapping.
Qed.

Lemma occurrence_le_matching_positions_witness :
  (1 ≤ 3 → is_Ok (generate_ngram_occurences (str "AAA") 1))
  ∧ ∀ occ, generate_ngram_occurences (str "AAA") 1 = Ok occ →
      ∀ (i : nat) (m : pystr), kmers (Z.to_nat 1) !! i = Some m →
        ∃ c, occ !! i = Some c
             ∧ c ≤ overlapping_count (str "AAA") m
             ∧ (1 = 1 → c = overlapping_count (str "AAA") m).
Proof. apply (occurrence_le_matching_positions (str "AAA") 1). lia. Defined.

(** ** Monogram counts *)

Lemma startswith_nil (s : pystr) : startswith s [] = true.
Proof. by destruct s. Qed.

Lemma count_scan_single (c : ascii) (s : pystr) :
  count_scan [c] 0 s = length (filter (λ x, x = c) s).
Proof.
  induction s as [|a s IH]; [done|].
  cbn [count_scan startswith length]. rewrite filter_cons.
  destruct (decide (a = c)) as [->|Hne]; simpl; by rewrite ?startswith_nil, IH.
Qed.

Lemma kmers_1 : kmers 1 = (λ c, [c]) <$> amino_acids.
Proof. reflexivity. Qed.

Lemma sum_counts_cons (x : Z) (l : list Z) : sum_counts (x :: l) = x + sum_counts l.
Proof. reflexivity. Qed.

Lemma sum_counts_zero {A} (l : list A) : sum_counts ((λ _, 0) <$> l) = 0.
Proof.
  induction l as [|x l IH]; [done|]. by rewrite fmap_cons, sum_counts_cons, IH.
Qed.

Lemma sum_counts_add {A} (f g : A → Z) (l : list A) :
  sum_counts ((λ x, f x + g x) <$> l) = sum_counts (f <$> l) + sum_counts (g <$> l).
Proof.
  induction l as [|x l IH]; [done|]. rewrite !fmap_cons, !sum_counts_cons, IH. lia.
Qed.

Lemma sum_counts_indicator (x : ascii) (l : list ascii) :
  NoDup l →
  sum_counts ((λ c, if decide (x = c) then 1 else 0) <$> l)
  = if decide (x ∈ l) then 1 else 0.
Proof.
  induction 1 as [|c l Hc _ IH]; [done|]. rewrite fmap_cons, sum_counts_cons, IH.
  destruct (decide (x = c)) as [->|Hne].
  - rewrite decide_False by done. rewrite decide_True by apply list_elem_of_here. done.
  - destruct (decide (x ∈ l)).
    + rewrite decide_True by (by apply list_elem_of_further). done.
    + rewrite decide_False; [done|]. rewrite elem_of_cons. tauto.
Qed.

Lemma sum_counts_alphabet (l : list ascii) (s : pystr) :
  NoDup l →
  sum_counts ((λ c, len (filter (λ x, x = c) s)) <$> l)
  = len (filter (λ x, x ∈ l) s).
Proof.
  intros Hl. induction s as [|x s IH].
  - simpl. apply sum_counts_zero.
  - rewrite (list_fmap_ext _ (λ c, (if decide (x = c) then 1 else 0)
                                   + len (filter (λ y, y = c) s)) l).
    + rewrite sum_counts_add, sum_counts_indicator, IH by done.
      rewrite filter_cons. unfold len. destruct (decide (x ∈ l)); simpl; lia.
    + intros _ c _. rewrite filter_cons. unfold len.
      destruct (decide (x = c)); simpl; lia.
Qed.

(** X4. The entries of the monogram occurrence vector add up to the
    number of characters of the sequence that are alphabet symbols: to
    [len(S)] when the sequence is over the alphabet, and to less whenever
    it holds any other character. *)
Theorem monogram_occurrences_sum (S : pystr) :
  ∃ occ, generate_ngram_occurences S 1 = Ok occ
    ∧ sum_counts occ = len (filter (λ c, c ∈ amino_acids) S)
    ∧ (Forall (λ c, c ∈ amino_acids) S ↔ sum_counts occ = len S).
Proof.
  eexists. split; [by apply generate_ngram_occurences_nonneg|].
  change (Z.to_nat 1) with 1%nat. rewrite kmers_1.
  assert (sum_counts (map (str_count S) ((λ c, [c]) <$> amino_acids))
          = len (filter (λ c, c ∈ amino_acids) S)) as Hsum.
  { rewrite <- sum_counts_alphabet by apply NoDup_amino_acids.
    rewrite <- list_fmap_compose. f_equal. apply list_fmap_ext. intros _ c _. simpl.
    unfold len. by rewrite count_scan_single. }
  split; [done|]. rewrite Hsum. unfold len. split.
  - intros Hall. f_equal. f_equal. clear Hsum.
    induction Hall as [|x s Hx _ IH]; [done|]. by rewrite filter_cons_True, IH.
  - intros Heq. apply Nat2Z.inj in Heq. apply Forall_forall. intros x Hx.
    destruct (decide (x ∈ amino_acids)) as [|Hnot]; [done|].
    pose proof (length_filter_lt (λ c, c ∈ amino_acids) S x Hx Hnot). lia.
Qed.

(** ** When the occurrence vector is zero *)

(** X5. For [k >= 1], whenever the occurrence extractor returns, and
    for [k] in {1, 2, 3} it does, the occurrence vector has a positive
    entry exactly when some window of [k] consecutive characters of the
    sequence is made of alphabet symbols only; a sequence shorter than
    [k], or one whose every window holds a foreign character, gets the
    zero vector. *)
Theorem occurrence_vector_nonzero_iff (S : pystr) (k : Z) :
  1 ≤ k →
  (k ≤ 3 → is_Ok (generate_ngram_occurences S k))
  ∧ ∀ occ, generate_ngram_occurences S k = Ok occ →
      ((∃ (i : nat) c, occ !! i = Some c ∧ 0 < c)
       ↔ ∃ p : nat, (p + Z.to_nat k ≤ length S)%nat
                    ∧ Forall (λ c, c ∈ amino_acids) (take (Z.to_nat k) (drop p S))).
Proof.
  intros Hk. split.
  { intros Hk3. eexists. apply generate_ngram_occurences_nonneg. lia. }
  intros occ [_ ->]%generate_ngram_occurences_inv.
  set (n := Z.to_nat k). assert (1 ≤ n)%nat as Hn by lia. split.
  - intros (i & c & Hi & Hc). rewrite list_lookup_fmap in Hi.
    destruct (kmers n !! i) as [m|] eqn:Hm; [|done]. injection Hi as <-.
    assert (m ≠ []) as Hne by (by eapply kmers_lookup_nonempty).
    apply str_count_pos in Hc as [p Hp]; [|done].
    apply list_elem_of_lookup_2, elem_of_kmers in Hm as [Hlen Hall].
    unfold occurs_at in Hp. rewrite Hlen in Hp. exists p. split; [|by rewrite Hp].
    apply (f_equal length) in Hp. rewrite length_take, length_drop in Hp. lia.
  - intros (p & Hp & Hall). set (m := take n (drop p S)).
    assert (length m = n) as Hlen.
    { unfold m. rewrite length_take, length_drop. lia. }
    assert (m ∈ kmers n) as Hin by (by apply elem_of_kmers).
    apply list_elem_of_lookup in Hin as [i Hi].
    exists i, (str_count S m). split; [by rewrite list_lookup_fmap, Hi|].
    apply str_count_pos; [intros Hnil; rewrite Hnil in Hlen; simpl in Hlen; lia|].
    exists p. unfold occurs_at. by rewrite Hlen.
Qed.

Lemma occurrence_vector_nonzero_iff_witness :
  (2 ≤ 3 → is_Ok (generate_ngram_occurences (str "XACX") 2))
  ∧ ∀ occ, generate_ngram_occurences (str "XACX") 2 = Ok occ →
      ((∃ (i : nat) c, occ !! i = Some c ∧ 0 < c)
       ↔ ∃ p : nat, (p + Z.to_nat 2 ≤ length (str "XACX"))%nat
                    ∧ Forall (λ c, c ∈ amino_acids)
                             (take (Z.to_nat 2) (drop p (str "XACX")))).
Proof. apply (occurrence_vector_nonzero_iff (str "XACX") 2). lia. Defined.

(** ** k = 0 *)

(** X6. With [k = 0] neither extractor rejects the call: the only k-mer
    is the empty string, which [str.count] finds [len(S) + 1] times, so
    the occurrence vector is [[len(S) + 1]] and the composition vector of
    a non-empty sequence is the one entry [(len(S) + 1) / len(S)] rounded
    to 3 digits; on the empty sequence composition still raises
    [ZeroDivisionError]. *)
Theorem zero_k_single_entry {F : PyFloat} (S : pystr) :
  generate_ngram_occurences S 0 = Ok [len S + 1]
  ∧ (S ≠ [] →
     generate_ngram_composition S 0
     = Ok [round_ndigits (int_truediv (len S + 1) (len S)) 3])
  ∧ generate_ngram_composition [] 0 = Raise ZeroDivisionError.
Proof.
  split; [done|]. split.
  - intros HS. by rewrite generate_ngram_composition_nonneg.
  - by apply generate_ngram_composition_empty.
Qed.

(** ** What feature generation leaves alone *)

Lemma mapM_result_Forall2 {A B} (f : A → result B) (l : list A) (k : list B) :
  mapM f l = Ok k → Forall2 (λ x y, f x = Ok y) l k.
Proof.
  revert k. induction l as [|x l IH]; intros k.
  - intros [= <-]. constructor.
  - rewrite mapM_result_cons. destruct (f x) as [y|] eqn:Hx; [|done].
    cbn. destruct (mapM f l) as [k'|] eqn:Hl; [|done].
    intros [= <-]. constructor; auto.
Qed.

Lemma Forall2_compose {A B C} (P : A → B → Prop) (Q : B → C → Prop) (R : A → C → Prop)
    (l : list A) (k : list B) (m : list C) :
  (∀ x y z, P x y → Q y z → R x z) → Forall2 P l k → Forall2 Q k m → Forall2 R l m.
Proof.
  intros HPQ HP. revert m. induction HP as [|x y l k Hxy _ IH]; intros m HQ.
  - inv HQ. constructor.
  - inv HQ. constructor; eauto.
Qed.

Section Untouched.
Context {F : PyFloat}.
Implicit Types (df : DataFrame) (r : row) (features : list string).

(** One step of [generate_features]: every record gets a list under the
    step's column and is otherwise unchanged. *)
Lemma generate_feature_inv df feat_name df' :
  generate_feature df feat_name = Ok df' →
  Forall2 (λ r r', ∃ l, r' = <[column_of feat_name := CList l]> r) df df'.
Proof.
  rewrite generate_feature_unfold. unfold apply_sequence.
  destruct (df_getitem df "Sequence") as [seqs|] eqn:Hseqs; [|done]. cbn.
  match goal with |- context [mapM ?g seqs] => destruct (mapM g seqs) as [col|] eqn:Hcol end;
    [|done].
  cbn. intros [= <-].
  apply mapM_result_Forall2 in Hseqs, Hcol.
  assert (Forall2 (λ (r : row) c, ∃ l, c = CList l) df col) as Hlists.
  { eapply Forall2_compose; [|exact Hseqs|exact Hcol].
    intros r c y _ Hy. simpl in Hy. destruct c; try done.
    destruct (extractor feat_name s) as [l|]; [|done]. injection Hy as <-. by exists l. }
  unfold df_setitem. clear Hseqs Hcol.
  induction Hlists as [|r c df col [l ->] _ IH]; [constructor|].
  simpl. constructor; [by exists l|done].
Qed.

Lemma generate_features_inv df features df' :
  generate_features df features = Ok df' →
  Forall2 (λ r r', ∀ c, c ∉ recognised_features → r' !! c = r !! c) df df'.
Proof.
  revert df. induction features as [|f features IH]; intros df.
  - intros [= <-]. by apply Forall_Forall2_diag, Forall_true.
  - cbn [generate_features].
    destruct (generate_feature df f) as [df1|] eqn:Hstep; [|done]. cbn. intros Hrest.
    eapply Forall2_compose; [|exact (generate_feature_inv _ _ _ Hstep)|exact (IH _ Hrest)].
    intros r r1 r' [l ->] Hr' c Hc. rewrite Hr' by done.
    apply lookup_insert_ne. intros <-. apply Hc, column_of_recognised.
Qed.

End Untouched.

(** X7. Whatever the feature list, when [generate_features] returns, the
    table has as many records as before and every column other than the
    five feature columns, [Sequence] and [Label] among them, holds in
    each record what it held before. *)
Theorem generate_features_keeps_other_columns {F : PyFloat}
    (df df' : DataFrame) (features : list string) :
  generate_features df features = Ok df' →
  length df' = length df
  ∧ Forall2 (λ (r r' : row),
       r' !! "Sequence" = r !! "Sequence"
       ∧ r' !! "Label" = r !! "Label"
       ∧ ∀ c, c ∉ recognised_features → r' !! c = r !! c) df df'.
Proof.
  intros Hgen. apply generate_features_inv in Hgen.
  split; [symmetry; by eapply Forall2_length|].
  eapply Forall2_impl; [exact Hgen|]. intros r r' Hrr'. split_and!; [| |done].
  - apply Hrr', Sequence_unrecognised.
  - apply Hrr', Label_unrecognised.
Qed.

Lemma generate_features_keeps_other_columns_witness :
  let features := ["MonogramComp"; "Other"] in
  let df' := with_features features <$> example_table (F := QFloat.instance) in
  length df' = length (example_table (F := QFloat.instance))
  ∧ Forall2 (λ (r r' : row),
       r' !! "Sequence" = r !! "Sequence"
       ∧ r' !! "Label" = r !! "Label"
       ∧ ∀ c, c ∉ recognised_features → r' !! c = r !! c) example_table df'.
Proof.
  apply (generate_features_keeps_other_columns (F := QFloat.instance)
           example_table _ ["MonogramComp"; "Other"]).
  apply generate_features_ok.
  repeat (apply Forall_cons; split;
          [eexists; split; [reflexivity|repeat constructor; by eexists]|]).
  constructor.
Defined.

(** ** The three results stay aligned *)

Section Aligned.
Context {F : PyFloat}.
Implicit Types (df : DataFrame) (r : row) (features : list string).

Lemma df_getitem_inv df name col :
  df_getitem df name = Ok col → Forall2 (λ r c, r !! name = Some c) df col.
Proof.
  intros Hcol. apply mapM_result_Forall2 in Hcol.
  eapply Forall2_impl; [exact Hcol|]. intros r c Hrc. simpl in Hrc.
  destruct (r !! name); [|done]. by injection Hrc as ->.
Qed.

Lemma df_setitem_Forall2 df name col :
  length col = length df →
  Forall2 (λ r r', ∃ c, r' = <[name := c]> r) df (df_setitem df name col).
Proof.
  unfold df_setitem. revert col. induction df as [|r df IH]; intros [|c col] Hlen;
    try done; simpl; constructor.
  - by exists c.
  - apply IH. simpl in Hlen. lia.
Qed.

Lemma assign_features_inv df features df' :
  assign_features df features = Ok df' →
  Forall2 (λ r r', ∃ c, r' = <["Features" := c]> r) df df'.
Proof.
  intros Hset.
  assert ((rows ← mapM (λ r, concatenate_columns r features) df;
           mret (df_setitem df "Features" (CList <$> rows))) = Ok df') as Hrun.
  { destruct df, features; first [done|exact Hset]. }
  destruct (mapM (λ r, concatenate_columns r features) df) as [rows|] eqn:Hrows; [|done].
  cbn in Hrun. injection Hrun as <-.
  apply df_setitem_Forall2. rewrite length_fmap.
  apply mapM_result_Forall2, Forall2_length in Hrows. done.
Qed.

Lemma df_getitem_list_inv df names df' :
  df_getitem_list df names = Ok df' →
  df' = (λ r : row, filter (λ kv : string * cell, kv.1 ∈ names) r) <$> df.
Proof.
  unfold df_getitem_list.
  destruct (filter (λ name, ¬ has_column df name) names); [by intros [= <-]|].
  by case_decide.
Qed.

Lemma process_features_inv df features X label sequences :
  process_features df features = Ok (X, label, sequences) →
  length X = length df
  ∧ Forall2 (λ r c, r !! "Label" = Some c) df label
  ∧ Forall2 (λ r c, r !! "Sequence" = Some c) df sequences.
Proof.
  unfold process_features.
  destruct (generate_features df features) as [df1|] eqn:Hgen; [|done].
  cbn [mbind result_bind].
  destruct (assign_features df1 features) as [df2|] eqn:Hset; [|done].
  cbn [mbind result_bind].
  destruct (df_getitem_list df2 ["Features"; "Label"; "Sequence"]) as [df3|] eqn:Hsel;
    [|done].
  cbn [mbind result_bind].
  destruct (df_getitem df3 "Features") as [X_col|] eqn:HX; [|done].
  cbn [mbind result_bind].
  match goal with |- context [mapM ?g X_col] => destruct (mapM g X_col) as [X'|] eqn:HX' end;
    [|done].
  cbn [mbind result_bind].
  destruct (df_getitem df3 "Label") as [label'|] eqn:HL; [|done].
  cbn [mbind result_bind].
  destruct (df_getitem df3 "Sequence") as [sequences'|] eqn:HS; [|done].
  cbn [mbind result_bind].
  destruct (np_array X') as [X''|] eqn:Hnp; [|done]. cbn. intros [= <- <- <-].
  apply np_array_inv in Hnp as ->.
  apply generate_features_inv in Hgen. apply assign_features_inv in Hset.
  apply df_getitem_list_inv in Hsel.
  apply mapM_result_Forall2, Forall2_length in HX'.
  apply df_getitem_inv in HX, HL, HS.
  assert (Forall2 (λ r r' : row, ∀ name c, r' !! name = Some c → r !! name = Some c)
            df2 df3) as Hsub.
  { rewrite Hsel. apply Forall2_fmap_r, Forall_Forall2_diag, Forall_true.
    intros r name c Hc. by apply map_lookup_filter_Some_1_1 in Hc. }
  assert (∀ name col, name ≠ "Features" → name ∉ recognised_features →
            Forall2 (λ (r : row) (c : cell), r !! name = Some c) df3 col →
            Forall2 (λ (r : row) (c : cell), r !! name = Some c) df col) as Hback.
  { intros name col Hne Hnot Hcol.
    eapply Forall2_compose; [|exact Hgen|].
    2:{ eapply Forall2_compose; [|exact Hset|].
        2:{ eapply Forall2_compose; [|exact Hsub|exact Hcol].
            intros r2 r3 c Hr3 Hc. apply Hr3, Hc. }
        intros r1 r2 c [v ->] Hc. cbv beta in Hc.
        rewrite lookup_insert_ne in Hc by done. exact Hc. }
    intros r r1 c Hr1 Hc. simpl in Hc. by rewrite <- Hr1. }
  split_and!.
  - apply Forall2_length in Hgen, Hset, Hsub, HX. lia.
  - apply Hback; [done|apply Label_unrecognised|done].
  - apply Hback; [done|apply Sequence_unrecognised|done].
Qed.

End Aligned.

(** X8. Whatever the feature list, when [process_features] returns, it
    returns one row vector per record, and the labels and the sequences it
    returns are the [Label] and [Sequence] cells of the records, in the
    order of the table: the three results are aligned index by index. *)
Theorem process_features_aligned {F : PyFloat} (df : DataFrame) (features : list string)
    (X : list (list value)) (label sequences : list cell) :
  process_features df features = Ok (X, label, sequences) →
  length X = length df
  ∧ length label = length df
  ∧ length sequences = length df
  ∧ ∀ (i : nat) (r : row), df !! i = Some r →
      label !! i = r !! "Label" ∧ sequences !! i = r !! "Sequence".
Proof.
  intros (HX & HL & HS)%process_features_inv.
  split_and!; [done|symmetry; by eapply Forall2_length..|].
  intros i r Hr.
  destruct (Forall2_lookup_l _ _ _ _ _ HL Hr) as (c & -> & ->).
  destruct (Forall2_lookup_l _ _ _ _ _ HS Hr) as (c' & -> & ->). done.
Qed.

Lemma example_table_extractable {F : PyFloat} (features : list string) :
  Forall (λ f, is_Ok (extractor f (str "AC")) ∧ is_Ok (extractor f (str "GG"))) features →
  Forall (extractable features) example_table.
Proof.
  intros Hall. unfold example_table.
  repeat (apply Forall_cons; split; [eexists; split; [reflexivity|]|]);
    [..|constructor];
    (eapply Forall_impl; [exact Hall|]; by intros f [? ?]).
Qed.

Lemma example_table_labelled {F : PyFloat} :
  Forall (λ r : row, is_Some (r !! "Label")) example_table.
Proof. repeat constructor; by eexists. Qed.

Lemma process_features_aligned_witness :
  let df := example_table (F := QFloat.instance) in
  let features := ["MonogramOccur"] in
  let X := (λ r, concat ((λ f, block f (seq_of r)) <$> features)) <$> df in
  let label := (λ r : row, default (CInt 0) (r !! "Label")) <$> df in
  let sequences := (λ r, CStr (seq_of r)) <$> df in
  length X = length df
  ∧ length label = length df
  ∧ length sequences = length df
  ∧ ∀ (i : nat) (r : row), df !! i = Some r →
      label !! i = r !! "Label" ∧ sequences !! i = r !! "Sequence".
Proof.
  intros df features X label sequences.
  apply (process_features_aligned (F := QFloat.instance) df features).
  apply process_features_recognised.
  - done.
  - repeat constructor.
  - apply Forall_and. split; [|apply example_table_labelled].
    apply example_table_extractable. repeat constructor; by eexists.
Defined.

(** ** Missing columns *)

(** X9. On a table whose first record has no [Sequence] column, feature
    generation for a non-empty feature list raises [KeyError] for
    'Sequence', and so does [process_features]. *)
Theorem missing_sequence_column_raises {F : PyFloat}
    (r : row) (df : DataFrame) (feat_name : string) (features : list string) :
  r !! "Sequence" = None →
  generate_features (r :: df) (feat_name :: features) = Raise (KeyError "Sequence")
  ∧ process_features (r :: df) (feat_name :: features) = Raise (KeyError "Sequence").
Proof.
  intros Hr.
  assert (generate_features (r :: df) (feat_name :: features)
          = Raise (KeyError "Sequence")) as Hgen.
  { cbn [generate_features]. rewrite generate_feature_unfold.
    unfold apply_sequence, df_getitem. rewrite mapM_result_cons, Hr. done. }
  split; [done|]. unfold process_features. by rewrite Hgen.
Qed.

Lemma missing_sequence_column_raises_witness :
  process_features (F := QFloat.instance) [{["Label" := CInt 1]}] ["MonogramOccur"]
  = Raise (KeyError "Sequence").
Proof.
  apply (missing_sequence_column_raises (F := QFloat.instance)
           {["Label" := CInt 1]} [] "MonogramOccur" []).
  reflexivity.
Defined.

Lemma df_getitem_list_missing_label {F : PyFloat} (df : DataFrame) :
  has_column df "Features" → ¬ has_column df "Label" → has_column df "Sequence" →
  df_getitem_list df ["Features"; "Label"; "Sequence"]
  = Raise (KeyError "['Label'] not in index").
Proof.
  intros HF HL HS. unfold df_getitem_list.
  rewrite filter_cons_False by tauto. rewrite filter_cons_True by done.
  rewrite filter_cons_False by tauto. reflexivity.
Qed.

(** X10. On a table whose records can all be extracted but whose first
    record has no [Label] column, [process_features] raises the
    [KeyError] of the selection of the three columns, which names
    'Label' as not in the index: the features are computed and the rows
    assembled first, and the run fails afterwards. *)
Theorem missing_label_column_raises {F : PyFloat}
    (r : row) (df : DataFrame) (features : list string) :
  Forall (λ f, f ∈ recognised_features) features →
  Forall (extractable features) (r :: df) →
  r !! "Label" = None →
  is_Ok (generate_features (r :: df) features)
  ∧ is_Ok (generate_features (r :: df) features ≫= λ feature_df,
           assign_features feature_df features)
  ∧ process_features (r :: df) features = Raise (KeyError "['Label'] not in index").
Proof.
  intros Hrec Hext Hr. rewrite (generate_features_ok _ _ Hext).
  split; [by eexists|]. unfold process_features.
  rewrite (generate_features_ok _ _ Hext). cbn [mbind result_bind].
  set (g := λ r : row, concat ((λ f, block f (seq_of r)) <$> features)).
  rewrite (assign_features_Ok _ g);
    [|done|apply Forall_true; intros r'; by apply concatenate_columns_with_features].
  split; [by eexists|]. cbn [mbind result_bind].
  rewrite df_getitem_list_missing_label; [done|..].
  - apply has_column_Forall, Forall_fmap, Forall_true. intros r'. unfold compose.
    rewrite lookup_insert_eq. by eexists.
  - rewrite fmap_cons. apply has_column_cons_None.
    rewrite lookup_insert_ne by done.
    by rewrite lookup_with_features_other by apply Label_unrecognised.
  - apply has_column_Forall, Forall_fmap. eapply Forall_impl; [exact Hext|].
    intros r' Hr'. unfold compose. rewrite lookup_insert_ne by done.
    rewrite lookup_with_features_other by apply Sequence_unrecognised.
    rewrite (extractable_sequence _ _ Hr'). by eexists.
Qed.

Lemma missing_label_column_raises_witness :
  process_features (F := QFloat.instance)
    [{["Sequence" := CStr (str "AC")]}] ["MonogramOccur"]
  = Raise (KeyError "['Label'] not in index").
Proof.
  apply (missing_label_column_raises (F := QFloat.instance)
           {["Sequence" := CStr (str "AC")]} [] ["MonogramOccur"]).
  - repeat constructor.
  - repeat constructor. eexists. split; [reflexivity|]. repeat constructor; by eexists.
  - reflexivity.
Defined.

(** ** One empty sequence *)

Lemma mapM_result_first_raise {A B} (f : A → result B) (e : exn) (l : list A) :
  Forall (λ x, is_Ok (f x) ∨ f x = Raise e) l →
  Exists (λ x, f x = Raise e) l →
  mapM f l = Raise e.
Proof.
  induction 1 as [|x l Hx Hl IH]; intros Hex; [by inv Hex|].
  rewrite mapM_result_cons. destruct Hx as [[y Hy]| ->]; [|done].
  rewrite Hy. cbn. inv Hex; [congruence|]. by rewrite IH.
Qed.

Section EmptySequence.
Context {F : PyFloat}.
Implicit Types (df : DataFrame) (r : row) (features : list string).

Lemma extractor_composition feat_name (s : pystr) :
  feat_name ∈ composition_features →
  extractor feat_name s = Raise ZeroDivisionError ↔ s = [].
Proof.
  unfold composition_features. rewrite !elem_of_cons, elem_of_nil.
  intros [->|[->|[->|[]]]];
    (split;
     [ intros Hraise; destruct (decide (s = [])) as [|Hne]; [done|];
       match goal with
       | H : extractor _ _ = _ |- _ =>
           unfold extractor, composition_values in H; cbn [String.eqb Ascii.eqb Bool.eqb] in H;
           rewrite generate_ngram_composition_nonneg in H by (lia || done); done
       end
     | intros ->; unfold extractor, composition_values; cbn [String.eqb Ascii.eqb Bool.eqb];
       by rewrite generate_ngram_composition_empty by lia ]).
Qed.


Lemma extractor_other feat_name (s : pystr) :
  feat_name ∉ composition_features → is_Ok (extractor feat_name s).
Proof.
  unfold composition_features, extractor. intros Hnot.
  repeat (case_identifier;
          [first [ exfalso; apply Hnot; rewrite !elem_of_cons; tauto
                 | rewrite occurence_values_Ok by lia; by eexists ]|]).
  rewrite occurence_values_Ok by lia. by eexists.
Qed.

Lemma extractor_nonempty feat_name (s : pystr) :
  s ≠ [] → is_Ok (extractor feat_name s).
Proof.
  intros Hs. destruct (decide (feat_name ∈ composition_features)) as [Hin|Hnot];
    [|by apply extractor_other].
  destruct (extractor feat_name s) as [l|e] eqn:Hex; [by eexists|].
  unfold composition_features in Hin. rewrite !elem_of_cons, elem_of_nil in Hin.
  destruct Hin as [->|[->|[->|[]]]];
    unfold extractor, composition_values in Hex; cbn [String.eqb Ascii.eqb Bool.eqb] in Hex;
    by rewrite generate_ngram_composition_nonneg in Hex by (lia || done).
Qed.

Lemma apply_sequence_empty df feat_name :
  Forall (λ r, ∃ s, r !! "Sequence" = Some (CStr s)) df →
  Exists (λ r, r !! "Sequence" = Some (CStr [])) df →
  feat_name ∈ composition_features →
  apply_sequence df (extractor feat_name) = Raise ZeroDivisionError.
Proof.
  intros Hstr Hempty Hcomp. unfold apply_sequence.
  rewrite <- (list_fmap_id df) at 1.
  rewrite (df_getitem_fmap_Ok _ "Sequence" (λ r, CStr (seq_of r))).
  2:{ eapply Forall_impl; [exact Hstr|]. intros r [s Hs]. simpl.
      unfold seq_of. by rewrite Hs. }
  cbn [mbind result_bind]. apply mapM_result_first_raise.
  - apply Forall_fmap. eapply Forall_impl; [exact Hstr|]. intros r [s Hs]. simpl.
    unfold seq_of. rewrite Hs. destruct (decide (s = [])) as [->|Hne].
    + right. by rewrite (proj2 (extractor_composition _ _ Hcomp)).
    + left. destruct (extractor_nonempty feat_name s Hne) as [l ->]. by eexists.
  - apply Exists_fmap. eapply Exists_impl; [exact Hempty|]. intros r Hr. simpl.
    unfold seq_of. rewrite Hr. by rewrite (proj2 (extractor_composition _ _ Hcomp)).
Qed.

Lemma generate_features_empty_sequence df features :
  Forall (λ r, ∃ s, r !! "Sequence" = Some (CStr s)) df →
  Exists (λ r, r !! "Sequence" = Some (CStr [])) df →
  Exists (λ f, f ∈ composition_features) features →
  generate_features df features = Raise ZeroDivisionError.
Proof.
  revert df. induction features as [|f features IH]; intros df Hstr Hempty Hcomp;
    [by inv Hcomp|].
  cbn [generate_features].
  destruct (decide (f ∈ composition_features)) as [Hin|Hnot].
  - by rewrite generate_feature_unfold, apply_sequence_empty.
  - rewrite generate_feature_ok.
    + cbn. apply IH.
      * apply Forall_fmap. eapply Forall_impl; [exact Hstr|]. intros r Hr. simpl.
        by rewrite lookup_with_feature_ne by apply Sequence_unrecognised.
      * apply Exists_fmap. eapply Exists_impl; [exact Hempty|]. intros r Hr. simpl.
        by rewrite lookup_with_feature_ne by apply Sequence_unrecognised.
      * by inv Hcomp.
    + eapply Forall_impl; [exact Hstr|]. intros r [s Hs]. exists s.
      split; [done|]. repeat constructor. by apply extractor_other.
Qed.

End EmptySequence.

(** X11. On a table of string sequences one of which is empty, any
    feature list that names a composition feature makes feature generation
    raise [ZeroDivisionError]: the run returns no table and no matrix,
    whatever the other records and the other features are. *)
Theorem empty_sequence_fails_composition {F : PyFloat}
    (df : DataFrame) (features : list string) :
  Forall (λ r : row, ∃ s, r !! "Sequence" = Some (CStr s)) df →
  Exists (λ r : row, r !! "Sequence" = Some (CStr [])) df →
  Exists (λ f, f ∈ composition_features) features →
  generate_features df features = Raise ZeroDivisionError
  ∧ process_features df features = Raise ZeroDivisionError.
Proof.
  intros Hstr Hempty Hcomp.
  pose proof (generate_features_empty_sequence _ _ Hstr Hempty Hcomp) as Hgen.
  split; [done|]. unfold process_features. by rewrite Hgen.
Qed.

Lemma empty_sequence_fails_composition_witness :
  process_features (F := QFloat.instance)
    [record "AC" 1; record "" 0] ["MonogramOccur"; "BigramComp"]
  = Raise ZeroDivisionError.
Proof.
  apply (empty_sequence_fails_composition (F := QFloat.instance)).
  - repeat constructor; by eexists.
  - apply Exists_cons_tl, Exists_cons_hd. reflexivity.
  - apply Exists_cons_tl, Exists_cons_hd. apply (bool_decide_unpack _). reflexivity.
Defined.

(** ** Occurrence features and the shape of the matrix *)

Section Shape.
Context {F : PyFloat}.
Implicit Types (df : DataFrame) (r : row) (features : list string).

(** A k-mer does not occur in a sequence that holds no alphabet symbol. *)
Lemma str_count_foreign (s m : pystr) (k : nat) :
  (1 ≤ k)%nat → m ∈ kmers k → Forall (λ c, c ∉ amino_acids) s → str_count s m = 0.
Proof.
  intros Hk [Hlen Hm]%elem_of_kmers Hs.
  destruct m as [|c m']; [simpl in Hlen; lia|].
  pose proof (str_count_nonneg s (c :: m')).
  destruct (decide (0 < str_count s (c :: m'))) as [Hpos|]; [|lia].
  apply str_count_pos in Hpos as [p Hp]; [|done].
  rewrite <- (take_drop p s) in Hs. apply Forall_app in Hs as [_ Hs].
  rewrite <- (take_drop (length (c :: m')) (drop p s)) in Hs.
  apply Forall_app in Hs as [Hs _]. unfold occurs_at in Hp. rewrite Hp in Hs.
  apply Forall_cons in Hs as [Hc _]. apply Forall_cons in Hm as [Hc' _]. done.
Qed.

Lemma block_occurrence_foreign feat_name (s : pystr) :
  feat_name ∉ composition_features → Forall (λ c, c ∉ amino_acids) s →
  Forall (λ v, v = VInt 0) (block feat_name s).
Proof.
  intros Hnot Hs. unfold block.
  assert (∀ n, 1 ≤ n →
            Forall (λ v, v = VInt 0) (map VInt (map (str_count s) (kmers (Z.to_nat n)))))
    as Hzero.
  { intros n Hn. apply Forall_fmap, Forall_fmap, Forall_forall.
    intros m Hm. simpl. f_equal. apply (str_count_foreign _ _ (Z.to_nat n)); [lia|done..]. }
  unfold composition_features, extractor in *.
  repeat (case_identifier;
          [first [ exfalso; apply Hnot; rewrite !elem_of_cons; tauto
                 | rewrite occurence_values_Ok by lia; apply Hzero; lia ]|]).
  rewrite occurence_values_Ok by lia. apply Hzero. lia.
Qed.

End Shape.

(** X12. With occurrence features only, [process_features] never fails
    on a table with a record whose sequences are strings and which has
    labels, whatever the strings hold; a sequence without any alphabet
    symbol, a lower-case one for instance, silently gets the zero
    vector. *)
Theorem occurrence_features_never_fail {F : PyFloat}
    (df : DataFrame) (features : list string) :
  df ≠ [] →
  Forall (λ f, f = "MonogramOccur" ∨ f = "BigramOccur") features →
  Forall (λ r : row, (∃ s, r !! "Sequence" = Some (CStr s)) ∧ is_Some (r !! "Label")) df →
  ∃ X label sequences,
    process_features df features = Ok (X, label, sequences)
    ∧ Forall2 (λ (r : row) x, ∀ s,
         r !! "Sequence" = Some (CStr s) → Forall (λ c, c ∉ amino_acids) s →
         Forall (λ v, v = VInt 0) x) df X.
Proof.
  intros Hne Hocc Hdf.
  assert (Forall (λ f, f ∈ recognised_features ∧ f ∉ composition_features) features)
    as Hfeat.
  { eapply Forall_impl; [exact Hocc|]. intros f [->| ->];
      (split; apply (bool_decide_unpack _); reflexivity). }
  eexists _, _, _. split.
  - apply process_features_recognised; [done|..].
    + eapply Forall_impl; [exact Hfeat|]. by intros f [? _].
    + eapply Forall_impl; [exact Hdf|]. intros r [[s Hs] HL]. split; [|done].
      exists s. split; [done|]. eapply Forall_impl; [exact Hfeat|].
      intros f [_ Hnot]. by apply extractor_other.
  - apply Forall2_fmap_r, Forall_Forall2_diag, Forall_true. intros r s Hr Hs.
    assert (seq_of r = s) as -> by (unfold seq_of; by rewrite Hr).
    clear Hocc. induction Hfeat as [|f features [_ Hnot] _ IH]; [constructor|].
    rewrite fmap_cons. simpl concat. apply Forall_app.
    split; [by apply block_occurrence_foreign|done].
Qed.

Lemma occurrence_features_never_fail_witness :
  ∃ X label sequences,
    process_features (F := QFloat.instance)
      [record "AC" 1; record "ac" 0] ["BigramOccur"; "MonogramOccur"]
    = Ok (X, label, sequences)
    ∧ Forall2 (λ (r : row) x, ∀ s,
         r !! "Sequence" = Some (CStr s) → Forall (λ c, c ∉ amino_acids) s →
         Forall (λ v, v = VInt 0) x)
        [record "AC" 1; record "ac" 0] X.
Proof.
  apply (occurrence_features_never_fail (F := QFloat.instance)).
  - done.
  - repeat constructor; tauto.
  - repeat constructor; by eexists.
Defined.

(** X13. On a table with a record, when every extractor of a list of the
    five feature identifiers returns on every record, all row vectors
    have one length, the sum of the widths of the identifiers (20, 400 or
    8000 each): the feature matrix is rectangular, and [np.array] takes
    it. *)
Theorem feature_matrix_rectangular {F : PyFloat}
    (df : DataFrame) (features : list string) :
  df ≠ [] →
  Forall (λ f, f ∈ recognised_features) features →
  Forall (λ r : row, extractable features r ∧ is_Some (r !! "Label")) df →
  ∃ X label sequences,
    process_features df features = Ok (X, label, sequences)
    ∧ Forall (λ x, length x = sum_list (feature_width <$> features)) X.
Proof.
  intros Hne Hrec Hdf. eexists _, _, _.
  split; [by apply process_features_recognised|].
  apply Forall_fmap. eapply Forall_impl; [exact Hdf|]. intros r [Hr _]. simpl.
  by apply length_blocks.
Qed.

Lemma feature_matrix_rectangular_witness :
  ∃ X label sequences,
    process_features (F := QFloat.instance) example_table ["BigramOccur"; "MonogramComp"]
    = Ok (X, label, sequences)
    ∧ Forall (λ x, length x
                   = sum_list (feature_width <$> ["BigramOccur"; "MonogramComp"])) X.
Proof.
  apply (feature_matrix_rectangular (F := QFloat.instance)).
  - done.
  - repeat constructor.
  - apply Forall_and. split; [|apply example_table_labelled].
    apply example_table_extractable. repeat constructor; by eexists.
Defined.

(** ** Concatenation and the order of generation *)

Section Concatenation.
Context {F : PyFloat}.
Implicit Types (df : DataFrame) (r : row) (features columns : list string).

Lemma concatenate_from_acc r columns (acc : list value) :
  concatenate_from acc r columns = (λ x, acc ++ x) <$> concatenate_from [] r columns.
Proof.
  revert acc. induction columns as [|c columns IH]; intros acc.
  - simpl. by rewrite app_nil_r.
  - cbn [concatenate_from]. destruct (r !! c) as [obj|]; [|done].
    destruct obj as [s|z|x|l]; cbn; try done.
    + rewrite (IH (acc ++ _)), (IH (map _ s)).
      destruct (concatenate_from [] r columns); cbn; [|done]. by rewrite app_assoc.
    + rewrite (IH (acc ++ l)), (IH l).
      destruct (concatenate_from [] r columns); cbn; [|done]. by rewrite app_assoc.
Qed.

Lemma concatenate_from_app r columns1 columns2 (acc : list value) :
  concatenate_from acc r (columns1 ++ columns2)
  = acc' ← concatenate_from acc r columns1; concatenate_from acc' r columns2.
Proof.
  revert acc. induction columns1 as [|c columns1 IH]; intros acc; [done|].
  cbn [app concatenate_from]. destruct (r !! c) as [obj|]; [|done].
  destruct (list_iadd acc obj) as [acc'|]; [|done]. cbn. apply IH.
Qed.

End Concatenation.

(** X14. Concatenating the columns of two lists, one after the other,
    gives the concatenation of what each list gives; when the first list
    fails, its error is the error of the whole, whatever the second list
    is. *)
Theorem concatenate_columns_app {F : PyFloat} (r : row) (columns1 columns2 : list string) :
  concatenate_columns r (columns1 ++ columns2)
  = x1 ← concatenate_columns r columns1;
    x2 ← concatenate_columns r columns2;
    mret (x1 ++ x2).
Proof.
  unfold concatenate_columns. rewrite concatenate_from_app.
  destruct (concatenate_from [] r columns1) as [x1|]; [|done]. cbn.
  rewrite concatenate_from_acc. by destruct (concatenate_from [] r columns2).
Qed.

(** X15. The cells feature generation writes do not depend on the order
    of the feature list nor on repetitions in it: for two lists that name
    the same feature columns, on a table with a record, when the
    extractors of the first list return on every record, feature
    generation returns for both lists, and the two tables hold, record by
    record, the same cell under every column name. Only the
    concatenation follows the order of the list. *)
Theorem generate_features_order_irrelevant {F : PyFloat}
    (df : DataFrame) (features1 features2 : list string) :
  df ≠ [] →
  (∀ c, c ∈ column_of <$> features1 ↔ c ∈ column_of <$> features2) →
  Forall (extractable features1) df →
  ∃ df1 df2,
    generate_features df features1 = Ok df1
    ∧ generate_features df features2 = Ok df2
    ∧ Forall2 (λ r1 r2 : row, ∀ c, r1 !! c = r2 !! c) df1 df2.
Proof.
  intros _ Hcols Hext.
  assert (Forall (extractable features2) df) as Hext2.
  { eapply Forall_impl; [exact Hext|]. intros r (s & Hs & Hall). exists s.
    split; [done|]. apply Forall_forall. intros f2 Hf2.
    assert (column_of f2 ∈ column_of <$> features1) as (f1 & Heq & Hf1)%list_elem_of_fmap.
    { apply Hcols. by apply list_elem_of_fmap_2. }
    rewrite Forall_forall in Hall.
    rewrite <- extractor_column_of, Heq, extractor_column_of. by apply Hall. }
  eexists _, _. split; [by apply generate_features_ok|].
  split; [by apply generate_features_ok|].
  apply Forall2_fmap, Forall_Forall2_diag, Forall_true. intros r c.
  rewrite !lookup_with_features.
  destruct (decide (c ∈ column_of <$> features1)) as [Hin|Hnin].
  - by rewrite decide_True by (by apply Hcols).
  - by rewrite decide_False by (by rewrite <- Hcols).
Qed.

Lemma generate_features_order_irrelevant_witness :
  ∃ df1 df2,
    generate_features (F := QFloat.instance) example_table ["MonogramOccur"; "BigramComp"]
    = Ok df1
    ∧ generate_features example_table ["BigramComp"; "MonogramOccur"; "BigramComp"]
      = Ok df2
    ∧ Forall2 (λ r1 r2 : row, ∀ c, r1 !! c = r2 !! c) df1 df2.
Proof.
  apply (generate_features_order_irrelevant (F := QFloat.instance)).
  - done.
  - intros c. cbn [fmap list_fmap]. rewrite !elem_of_cons, !elem_of_nil. tauto.
  - apply example_table_extractable. repeat constructor; by eexists.
Defined.

(** ** An identifier that names a column of the table *)

(** X16. An identifier outside the five that names a column of the table
    is not rejected either. For 'Sequence' the row vector of a record is
    its sequence, character by character: the run returns these rows when
    all sequences have one length, and ends in the [ValueError] of
    [np.array] as soon as one sequence differs in length from the first.
    For 'Label', on integer labels, the run raises [TypeError]. *)
Theorem existing_column_as_feature {F : PyFloat} (r0 : row) (df : DataFrame) :
  Forall (λ r : row, (∃ s, r !! "Sequence" = Some (CStr s))
                     ∧ (∃ z, r !! "Label" = Some (CInt z))) (r0 :: df) →
  (Forall (λ r, length (seq_of r) = length (seq_of r0)) df →
   ∃ X label sequences,
     process_features (r0 :: df) ["Sequence"] = Ok (X, label, sequences)
     ∧ Forall2 (λ (r : row) x, ∃ s,
          r !! "Sequence" = Some (CStr s) ∧ x = map (λ c, VStr [c]) s) (r0 :: df) X)
  ∧ (Exists (λ r, length (seq_of r) ≠ length (seq_of r0)) df →
     process_features (r0 :: df) ["Sequence"]
     = Raise (ValueError (inhomogeneous_shape (length (r0 :: df)))))
  ∧ process_features (r0 :: df) ["Label"] = Raise (TypeError "object is not iterable").
Proof.
  intros Hdf.
  assert (∀ feat_name, feat_name ∉ recognised_features →
            Forall (λ r, extractable [feat_name] r ∧ is_Some (r !! "Label")) (r0 :: df))
    as Hext.
  { intros f Hf. eapply Forall_impl; [exact Hdf|]. intros r [[s Hs] [z Hz]].
    split; [|by eexists]. exists s. split; [done|]. repeat constructor.
    rewrite extractor_unrecognised, occurence_values_Ok by (done || lia). by eexists. }
  set (g := λ r : row, map (λ c, VStr [c]) (seq_of r)).
  assert (process_features (r0 :: df) ["Sequence"]
          = X ← np_array (g <$> r0 :: df);
            mret (X, (λ r : row, default (CInt 0) (r !! "Label")) <$> r0 :: df,
                     (λ r, CStr (seq_of r)) <$> r0 :: df)) as Hrun.
  { apply process_features_rows; [done|apply Hext, Sequence_unrecognised|].
    eapply Forall_impl; [exact Hdf|]. intros r [[s Hs] _]. cbv beta.
    unfold concatenate_columns. cbn [concatenate_from].
    change (with_features ["Sequence"] r) with (with_feature "Sequence" r).
    rewrite lookup_with_feature_ne by apply Sequence_unrecognised.
    unfold g, seq_of. by rewrite Hs. }
  split_and!.
  - intros Hlen. eexists _, _, _. split.
    + rewrite Hrun, (np_array_rectangular (length (seq_of r0))); [done|].
      apply Forall_fmap, Forall_cons. unfold compose, g.
      split; [by rewrite length_map|].
      eapply Forall_impl; [exact Hlen|]. intros r Hr. cbv beta. by rewrite length_map.
    + apply Forall2_fmap_r, Forall_Forall2_diag.
      eapply Forall_impl; [exact Hdf|]. intros r [[s Hs] _]. exists s.
      unfold g, seq_of. by rewrite Hs.
  - intros Hlen. rewrite Hrun.
    change (g <$> r0 :: df) with (g r0 :: (g <$> df)). rewrite np_array_ragged.
    + by rewrite !length_cons, length_fmap.
    + apply Exists_fmap. eapply Exists_impl; [exact Hlen|]. intros r Hr.
      unfold compose, g. by rewrite !length_map.
  - unfold process_features.
    rewrite generate_features_ok
      by (eapply Forall_impl; [exact (Hext "Label" Label_unrecognised)|]; by intros r [? _]).
    cbn [mbind result_bind]. apply Forall_cons in Hdf as [[_ [z Hz]] _].
    rewrite fmap_cons,
      (assign_features_first_raise _ _ _ (TypeError "object is not iterable")); [done|].
    change (with_features ["Label"] r0) with (with_feature "Label" r0).
    unfold concatenate_columns. cbn [concatenate_from].
    by rewrite lookup_with_feature_ne, Hz by apply Label_unrecognised.
Qed.

Lemma existing_column_as_feature_witness :
  let df := [record "GGG" 1; record "AC" 0] in
  process_features (F := QFloat.instance) df ["Sequence"]
  = Raise (ValueError (inhomogeneous_shape 2))
  ∧ process_features (F := QFloat.instance) df ["Label"]
    = Raise (TypeError "object is not iterable").
Proof.
  intros df.
  destruct (existing_column_as_feature (F := QFloat.instance)
              (record "GGG" 1) [record "AC" 0]) as (_ & Hragged & Hlabel).
  - repeat constructor; by eexists.
  - split; [|exact Hlabel]. apply Hragged. apply Exists_cons_hd. by vm_compute.
Defined.

(** ** Runs of the harness *)

Section Runs.
Context {F : PyFloat} {SK : Sklearn}.

Lemma io_bind_lift {A B} (r : result A) (k : A → io B) :
  lift r ≫= k = match r with Ok a => k a | Raise e => IO [] (Raise e) end.
Proof. destruct r as [a|e]; cbn; [by destruct (k a)|done]. Qed.

Lemma io_bind_emit {B} (ev : event) (k : unit → io B) :
  emit ev ≫= k = IO (ev :: trace (k tt)) (outcome (k tt)).
Proof. cbn. by destruct (k tt). Qed.

Lemma quiet_lift {A B} (r : result A) (k : A → io B) :
  (∀ a, r = Ok a → quiet_on_failure (k a)) → quiet_on_failure (lift r ≫= k).
Proof.
  intros Hk. rewrite io_bind_lift. destruct r as [a|e]; [by apply Hk|].
  intros e' _. constructor.
Qed.

Lemma quiet_emit {B} (ev : event) (k : unit → io B) :
  ¬ is_output ev → quiet_on_failure (k tt) → quiet_on_failure (emit ev ≫= k).
Proof.
  intros Hev Hk. rewrite io_bind_emit. intros e He. cbn in *. constructor; [done|].
  exact (Hk e He).
Qed.

Lemma print_report_run (CM : Z * Z * Z * Z) (accuray F1_Score MCC AUC : npfloat) :
  ∃ lines, print_report CM accuray F1_Score MCC AUC = IO (EvPrint <$> lines) (Ok tt)
           ∧ length lines = 8%nat.
Proof.
  destruct CM as [[[TN FP] FN] TP]. eexists [_; _; _; _; _; _; _; _].
  split; [reflexivity|done].
Qed.

Lemma quiet_write_and_report (test_seq : list cell) (true_val pred_val : list string)
    (CM : Z * Z * Z * Z) (accuray F1_Score MCC AUC : npfloat) :
  quiet_on_failure (_ ← write_predictions test_seq true_val pred_val;
                    print_report CM accuray F1_Score MCC AUC).
Proof.
  unfold write_predictions. case_decide.
  - rewrite io_bind_emit. destruct (print_report_run CM accuray F1_Score MCC AUC)
      as (lines & -> & _). by intros e He.
  - rewrite io_bind_lift. intros e _. constructor.
Qed.

End Runs.

(** X17. A run of [classifiers] that raises leaves nothing behind: by
    then it has written no report file and printed no line. *)
Theorem failed_run_leaves_no_output {F : PyFloat} {SK : Sklearn}
    (x_train : list (list value)) (y_train : list Z)
    (x_test : list (list value)) (y_test : list Z)
    (train_seq test_seq : list cell) (model : string) (e : exn) :
  let run := classifiers x_train y_train x_test y_test train_seq test_seq model in
  outcome run = Raise e → Forall (λ ev, ¬ is_output ev) (trace run).
Proof.
  intros run. revert e. change (quiet_on_failure run).
  subst run. unfold classifiers. cbv zeta.
  repeat first [ apply quiet_lift; intros ? _
               | apply quiet_emit; [by intros []|]
               | apply quiet_write_and_report ].
Qed.

Lemma failed_run_leaves_no_output_witness :
  let run := classifiers (F := QFloat.instance) (SK := replay [] [] NaN NaN NaN NaN NaN)
               [] [] [] [] [] [] "svm-poly" in
  Forall (λ ev, ¬ is_output ev) (trace run).
Proof.
  intros run.
  apply (failed_run_leaves_no_output (F := QFloat.instance)
           (SK := replay [] [] NaN NaN NaN NaN NaN)
           [] [] [] [] [] [] "svm-poly" (UnboundLocalError "model1")).
  reflexivity.
Defined.

(** X18. A run of [classifiers] that returns has fitted the selected
    classifier once, predicted labels and probabilities once, written one
    report file with one row per test record, pairing the record's
    sequence with its true and its predicted label as text, and then
    printed eight lines; nothing else. *)
Theorem successful_run_trace {F : PyFloat} {SK : Sklearn}
    (x_train : list (list value)) (y_train : list Z)
    (x_test : list (list value)) (y_test : list Z)
    (train_seq test_seq : list cell) (model : string) :
  let run := classifiers x_train y_train x_test y_test train_seq test_seq model in
  outcome run = Ok tt →
  ∃ clf fit y_pred lines,
    select_model model = Some clf
    ∧ svc_fit clf x_train y_train = Ok fit
    ∧ svc_predict fit x_test = Ok y_pred
    ∧ length y_pred = length y_test
    ∧ length test_seq = length y_test
    ∧ length lines = 8%nat
    ∧ trace run
      = [EvFit clf; EvPredict; EvPredictProba;
         EvToCsv "output.csv"
           (zip (zip test_seq (label_text <$> y_test)) (label_text <$> y_pred))]
        ++ (EvPrint <$> lines).
Proof.
  intros run. subst run. unfold classifiers. cbv zeta.
  rewrite io_bind_lift. destruct (select_model model) as [clf|] eqn:Hsel; [|done].
  cbn [read_model1]. rewrite io_bind_emit. cbn [outcome trace].
  rewrite io_bind_lift. destruct (svc_fit clf x_train y_train) as [fit|] eqn:Hfit; [|done].
  rewrite io_bind_emit. cbn [outcome trace].
  rewrite io_bind_lift. destruct (svc_predict fit x_test) as [y_pred|] eqn:Hpred; [|done].
  rewrite io_bind_emit. cbn [outcome trace].
  rewrite io_bind_lift. destruct (svc_predict_proba fit x_test) as [y_proba|]; [|done].
  rewrite io_bind_lift.
  destruct (confusion_matrix y_test y_pred) as [cm|] eqn:Hcm; [|done].
  rewrite io_bind_lift. destruct (cm_iadd (0, 0, 0, 0) cm) as [CM|]; [|done].
  rewrite io_bind_lift. destruct (accuracy_score y_test y_pred) as [acc|]; [|done].
  rewrite io_bind_lift. destruct (f1_score y_test y_pred) as [f1|]; [|done].
  rewrite io_bind_lift. destruct (matthews_corrcoef y_test y_pred) as [mcc|]; [|done].
  rewrite io_bind_lift. destruct (recall_score y_test y_pred) as [rec|]; [|done].
  rewrite io_bind_lift. destruct (roc_auc y_test y_proba) as [auc|]; [|done].
  unfold write_predictions.
  destruct (print_report_run CM (np_mul_100 acc) f1 mcc auc) as (lines & Hreport & Hlines).
  case_decide as Hlen; [|by rewrite io_bind_lift].
  rewrite io_bind_emit, Hreport. cbn [outcome trace]. intros _.
  rewrite !length_map in Hlen. destruct Hlen as [Hlen1 Hlen2].
  exists clf, fit, y_pred, lines. split_and!; done.
Qed.

Lemma successful_run_trace_witness :
  let test_seq := [CStr (str "GG"); CStr (str "GG")] in
  let run := classifiers (SK := negatives_only_session)
               [] [] [[]; []] [0; 0] [] test_seq "svm-linear" in
  ∃ clf y_pred lines,
    length lines = 8%nat
    ∧ trace run
      = [EvFit clf; EvPredict; EvPredictProba;
         EvToCsv "output.csv"
           (zip (zip test_seq (label_text <$> [0; 0])) (label_text <$> y_pred))]
        ++ (EvPrint <$> lines).
Proof.
  intros test_seq run.
  destruct (successful_run_trace (F := QFloat.instance) (SK := negatives_only_session)
              [] [] [[]; []] [0; 0] [] test_seq "svm-linear" eq_refl)
    as (clf & fit & y_pred & lines & _ & _ & _ & _ & _ & Hlines & Htrace).
  by exists clf, y_pred, lines.
Defined.

(** ** The confusion matrix *)

Section Confusion.
Context {F : PyFloat} {SK : Sklearn}.
Implicit Types (y_true y_pred : list Z).

Lemma unique_labels_spec y_true y_pred :
  NoDup (unique_labels y_true y_pred)
  ∧ Sorted Z.le (unique_labels y_true y_pred)
  ∧ ∀ x, x ∈ unique_labels y_true y_pred ↔ x ∈ y_true ++ y_pred.
Proof.
  unfold unique_labels. split_and!.
  - rewrite merge_sort_Permutation. apply NoDup_remove_dups.
  - apply Sorted_merge_sort. apply _.
  - intros x. by rewrite merge_sort_Permutation, elem_of_remove_dups.
Qed.

Lemma labels_binary (L : list Z) :
  NoDup L → Sorted Z.le L → (∀ x, x ∈ L ↔ x = 0 ∨ x = 1) → L = [0; 1].
Proof.
  intros Hnd Hsorted Hel.
  assert (0 ∈ L) as H0 by (apply Hel; by left).
  assert (1 ∈ L) as H1 by (apply Hel; by right).
  destruct L as [|a [|b rest]].
  - by apply elem_of_nil in H0.
  - apply list_elem_of_singleton in H0, H1. congruence.
  - assert (a = 0 ∨ a = 1) as Ha by (apply Hel; apply list_elem_of_here).
    assert (b = 0 ∨ b = 1) as Hb
      by (apply Hel; apply list_elem_of_further, list_elem_of_here).
    apply NoDup_cons in Hnd as [Hab Hnd]. apply NoDup_cons in Hnd as [Hb' _].
    apply Sorted_inv in Hsorted as [_ Hle]. apply HdRel_inv in Hle.
    assert (a ≠ b) by (intros ->; apply Hab, list_elem_of_here).
    assert (a = 0 ∧ b = 1) as [-> ->] by lia.
    destruct rest as [|c rest]; [done|].
    assert (c = 0 ∨ c = 1) as [->| ->]
      by (apply Hel; do 2 apply list_elem_of_further; apply list_elem_of_here).
    + destruct Hab. apply list_elem_of_further, list_elem_of_here.
    + destruct Hb'. apply list_elem_of_here.
Qed.

Lemma labels_single (L : list Z) (a : Z) :
  NoDup L → (∀ x, x ∈ L ↔ x = a) → L = [a].
Proof.
  intros Hnd Hel. destruct L as [|b [|c rest]].
  - assert (a ∈ []) as Hin by (by apply Hel). by apply elem_of_nil in Hin.
  - f_equal. apply Hel, list_elem_of_here.
  - assert (b = a) as -> by (apply Hel, list_elem_of_here).
    assert (c = a) as -> by (apply Hel, list_elem_of_further, list_elem_of_here).
    apply NoDup_cons in Hnd as [Hab _]. destruct Hab. apply list_elem_of_here.
Qed.

Lemma filter_Forall_id {A} (P : A → Prop) `{∀ x, Decision (P x)} (l : list A) :
  Forall P l → filter P l = l.
Proof. induction 1 as [|x l Hx _ IH]; [done|]. by rewrite filter_cons_True, IH. Qed.

Lemma count_pairs_binary y_true y_pred :
  Forall (λ y, y = 0 ∨ y = 1) (y_true ++ y_pred) →
  count_pairs 0 0 y_true y_pred + count_pairs 0 1 y_true y_pred
  + count_pairs 1 0 y_true y_pred + count_pairs 1 1 y_true y_pred
  = len (zip y_true y_pred).
Proof.
  intros Hall. unfold count_pairs.
  assert (Forall (λ tp : Z * Z, (tp.1 = 0 ∨ tp.1 = 1) ∧ (tp.2 = 0 ∨ tp.2 = 1))
                 (zip y_true y_pred)) as Hpairs.
  { apply Forall_forall. intros [t p] Htp. rewrite Forall_forall in Hall.
    split; apply Hall, elem_of_app; [left|right].
    - by eapply elem_of_zip_l.
    - by eapply elem_of_zip_r. }
  clear Hall. induction Hpairs as [|[t p] pairs [Ht Hp] _ IH]; [done|].
  rewrite !filter_cons. unfold len in *. simpl in Ht, Hp.
  destruct Ht as [-> | ->], Hp as [-> | ->];
    repeat case_decide; try done; simpl length; lia.
Qed.

End Confusion.

(** X19. When the test labels and the predictions have one length and
    the labels seen among them are exactly 0 and 1, the four cells the
    report prints are the counts of the pairs (true, predicted) = (0,0),
    (0,1), (1,0), (1,1), and they add up to the number of test records. *)
Theorem binary_confusion_cells (y_test y_pred : list Z) :
  length y_test = length y_pred →
  (∀ y, y ∈ y_test ++ y_pred ↔ y = 0 ∨ y = 1) →
  ∃ cm TN FP FN TP,
    confusion_matrix y_test y_pred = Ok cm
    ∧ cm_iadd (0, 0, 0, 0) cm = Ok (TN, FP, FN, TP)
    ∧ TN = count_pairs 0 0 y_test y_pred
    ∧ FP = count_pairs 0 1 y_test y_pred
    ∧ FN = count_pairs 1 0 y_test y_pred
    ∧ TP = count_pairs 1 1 y_test y_pred
    ∧ TN + FP + FN + TP = len y_test.
Proof.
  intros Hlen Hlabels.
  destruct (unique_labels_spec y_test y_pred) as (Hnd & Hsorted & Hel).
  assert (unique_labels y_test y_pred = [0; 1]) as HL.
  { apply labels_binary; [done..|]. intros x. by rewrite Hel. }
  exists [[count_pairs 0 0 y_test y_pred; count_pairs 0 1 y_test y_pred];
          [count_pairs 1 0 y_test y_pred; count_pairs 1 1 y_test y_pred]],
    (count_pairs 0 0 y_test y_pred), (count_pairs 0 1 y_test y_pred),
    (count_pairs 1 0 y_test y_pred), (count_pairs 1 1 y_test y_pred).
  split_and!.
  - unfold confusion_matrix. rewrite decide_True by done. rewrite HL. reflexivity.
  - reflexivity.
  - reflexivity.
  - reflexivity.
  - reflexivity.
  - reflexivity.
  - rewrite count_pairs_binary.
    + unfold len. by rewrite length_zip_with_l_eq.
    + apply Forall_forall. intros y Hy. by apply Hlabels.
Qed.

Lemma binary_confusion_cells_witness :
  ∃ cm TN FP FN TP,
    confusion_matrix [0; 1; 1; 0] [0; 1; 0; 0] = Ok cm
    ∧ cm_iadd (0, 0, 0, 0) cm = Ok (TN, FP, FN, TP)
    ∧ TN = count_pairs 0 0 [0; 1; 1; 0] [0; 1; 0; 0]
    ∧ FP = count_pairs 0 1 [0; 1; 1; 0] [0; 1; 0; 0]
    ∧ FN = count_pairs 1 0 [0; 1; 1; 0] [0; 1; 0; 0]
    ∧ TP = count_pairs 1 1 [0; 1; 1; 0] [0; 1; 0; 0]
    ∧ TN + FP + FN + TP = len [0; 1; 1; 0].
Proof.
  apply (binary_confusion_cells [0; 1; 1; 0] [0; 1; 0; 0]); [reflexivity|].
  intros y. cbn [app]. rewrite !elem_of_cons, elem_of_nil. lia.
Defined.

(** X20. When every test label and every prediction is one and the same
    label, the confusion matrix has a single cell, and adding it to the
    2 by 2 matrix puts the number of test records into each of the four
    cells: the report then shows TN = FP = FN = TP. *)
Theorem single_label_fills_all_cells (y_test y_pred : list Z) (a : Z) :
  length y_test = length y_pred →
  y_test ≠ [] →
  Forall (λ y, y = a) (y_test ++ y_pred) →
  confusion_matrix y_test y_pred = Ok [[len y_test]]
  ∧ cm_iadd (0, 0, 0, 0) [[len y_test]]
    = Ok (len y_test, len y_test, len y_test, len y_test).
Proof.
  intros Hlen Hne Hall. split; [|done].
  destruct (unique_labels_spec y_test y_pred) as (Hnd & _ & Hel).
  assert (unique_labels y_test y_pred = [a]) as HL.
  { apply labels_single; [done|]. intros x. rewrite Hel. split.
    - intros Hx. rewrite Forall_forall in Hall. by apply Hall.
    - intros ->. destruct y_test as [|y y_test]; [done|].
      apply Forall_cons in Hall as [-> _]. apply list_elem_of_here. }
  unfold confusion_matrix. rewrite decide_True by done. rewrite HL.
  cbn [map]. do 3 f_equal.
  rewrite filter_Forall_id.
  - unfold len. by rewrite length_zip_with_l_eq.
  - apply Forall_forall. intros [t p] Htp. rewrite Forall_forall in Hall.
    f_equal; apply Hall, elem_of_app; [left|right].
    + by eapply elem_of_zip_l.
    + by eapply elem_of_zip_r.
Qed.

Lemma single_label_fills_all_cells_witness :
  confusion_matrix [0; 0; 0] [0; 0; 0] = Ok [[len [0; 0; 0]]]
  ∧ cm_iadd (0, 0, 0, 0) [[len [0; 0; 0]]]
    = Ok (len [0; 0; 0], len [0; 0; 0], len [0; 0; 0], len [0; 0; 0]).
Proof.
  apply (single_label_fills_all_cells [0; 0; 0] [0; 0; 0] 0); [done|done|].
  repeat constructor.
Defined.

Lemma cm_iadd_three_rows (CM : Z * Z * Z * Z) (cm : list (list Z)) :
  (3 ≤ length cm)%nat →
  cm_iadd CM cm = Raise (ValueError "operands could not be broadcast together").
Proof.
  intros Hlen. unfold cm_iadd. destruct CM as [[[a b] c] d].
  repeat case_match; subst; simpl in Hlen; try done; lia.
Qed.

Lemma confusion_matrix_three_labels (y_true y_pred : list Z) (a b c : Z) :
  length y_true = length y_pred →
  a ≠ b → a ≠ c → b ≠ c →
  a ∈ y_true ++ y_pred → b ∈ y_true ++ y_pred → c ∈ y_true ++ y_pred →
  ∃ cm, confusion_matrix y_true y_pred = Ok cm ∧ (3 ≤ length cm)%nat.
Proof.
  intros Hlen Hab Hac Hbc Ha Hb Hc.
  destruct (unique_labels_spec y_true y_pred) as (Hnd & _ & Hel).
  assert (3 ≤ length (unique_labels y_true y_pred))%nat as Hthree.
  { change 3%nat with (length [a; b; c]). apply submseteq_length, NoDup_submseteq.
    - repeat (apply NoDup_cons; split); [..|apply NoDup_nil_2];
        intros Hin; repeat (apply elem_of_cons in Hin as [Hin|Hin]; [congruence|]);
        by apply elem_of_nil in Hin.
    - intros x Hx. apply Hel.
      repeat (apply elem_of_cons in Hx as [->|Hx]; [done|]). by apply elem_of_nil in Hx. }
  unfold confusion_matrix. rewrite decide_True by done.
  destruct (unique_labels y_true y_pred) as [|l labels] eqn:HL; [simpl in Hthree; lia|].
  rewrite <- HL. eexists. split; [done|]. by rewrite length_map, HL.
Qed.

(** X21. When three different labels occur among the test labels and the
    predictions, the confusion matrix does not fit the 2 by 2 matrix of
    the harness: the run raises [ValueError] right after the predictions,
    before it writes or prints anything. *)
Theorem three_labels_raise {F : PyFloat} {SK : Sklearn}
    (x_train : list (list value)) (y_train : list Z)
    (x_test : list (list value)) (y_test : list Z)
    (train_seq test_seq : list cell) (model : string)
    (clf : SVC) (fit : fitted) (y_pred : list Z) (y_proba : list npfloat) (a b c : Z) :
  select_model model = Some clf →
  svc_fit clf x_train y_train = Ok fit →
  svc_predict fit x_test = Ok y_pred →
  svc_predict_proba fit x_test = Ok y_proba →
  length y_test = length y_pred →
  a ≠ b → a ≠ c → b ≠ c →
  a ∈ y_test ++ y_pred → b ∈ y_test ++ y_pred → c ∈ y_test ++ y_pred →
  classifiers x_train y_train x_test y_test train_seq test_seq model
  = IO [EvFit clf; EvPredict; EvPredictProba]
       (Raise (ValueError "operands could not be broadcast together")).
Proof.
  intros Hsel Hfit Hpred Hproba Hlen Hab Hac Hbc Ha Hb Hc.
  destruct (confusion_matrix_three_labels y_test y_pred a b c) as (cm & Hcm & Hrows);
    [done..|].
  unfold classifiers. cbv zeta.
  rewrite io_bind_lift, Hsel. cbn [read_model1].
  rewrite io_bind_emit, io_bind_lift, Hfit.
  rewrite io_bind_emit, io_bind_lift, Hpred.
  rewrite io_bind_emit, io_bind_lift, Hproba.
  rewrite io_bind_lift, Hcm.
  rewrite io_bind_lift, cm_iadd_three_rows by done. done.
Qed.

Lemma three_labels_raise_witness :
  classifiers (F := QFloat.instance) (SK := replay [0; 1; 2] [NaN; NaN; NaN] NaN NaN NaN NaN NaN)
    [] [] [[]; []; []] [0; 1; 1] [] [] "svm-rbf"
  = IO [EvFit {| svc_kernel := Rbf; svc_probability := true |}; EvPredict; EvPredictProba]
       (Raise (ValueError "operands could not be broadcast together")).
Proof.
  eapply (three_labels_raise (F := QFloat.instance)
            (SK := replay [0; 1; 2] [NaN; NaN; NaN] NaN NaN NaN NaN NaN)
            _ _ _ _ _ _ _ _ _ _ _ 0 1 2);
    try reflexivity; try done;
    cbn [app]; rewrite !elem_of_cons; tauto.
Defined.
